(** * nanoChatGPT/train.py: the supervised fine-tuning driver

    A shallow embedding of [examples/nanoChatGPT/train.py].  The script is an
    orchestration loop around PyTorch, so the embedding is a state-and-error
    monad with a log of the calls the script makes.  Everything the script
    imports (the model, the optimizer's arithmetic, the data loaders, the
    learning-rate schedule, the mixed-precision machinery) is a field of the
    classes [Carrier] and [Library]: the theorems hold for every
    implementation of them. *)

From Stdlib Require Import Ascii.
From stdpp Require Import gmap strings list fin_maps.

Local Open Scope Z_scope.
#[local] Set Warnings "-clear-no-such-hyp".

(** ** Carriers of the external libraries *)

Class Carrier := {
  tval : Type;        (* scalars: Python floats and zero-dimensional tensors *)
  Weights : Type;     (* the model's parameters *)
  Grad : Type;        (* the [.grad] fields of the parameters *)
  OptState : Type;    (* AdamW's moment estimates *)
  GroupRest : Type;   (* the entries of a parameter group other than "lr" *)
  Logits : Type;
  Data : Type;        (* input tokens and labels of a batch *)
  Ctx : Type;         (* the autocast context built by [setup] *)
  Extra : Type;       (* the config entries this file never reads *)
  AmpState : Type;    (* the scale factor and trackers of an enabled GradScaler *)
  Ret : Type;         (* whatever the model's forward call returns *)
  Texts : Type;       (* decoded token strings *)
  Rouge : Type;       (* the dict returned by rouge_fn.compute *)
}.

(** The two data loaders returned by [get_prompt_dataloaders]. *)
Inductive Split := Train | Val.

Global Instance Split_eq_dec : EqDecision Split.
Proof. solve_decision. Defined.

Definition Split_to_bool (s : Split) : bool :=
  match s with Train => true | Val => false end.
Definition Split_of_bool (b : bool) : Split := if b then Train else Val.

Lemma Split_of_to_bool s : Split_of_bool (Split_to_bool s) = s.
Proof. by destruct s. Qed.

Global Instance Split_countable : Countable Split :=
  inj_countable' Split_to_bool Split_of_bool Split_of_to_bool.

(** A batch object is identified by the loader that yielded it and its
    position in that loader's stream: every [next(loader)] yields a new
    object. *)
Definition ref : Type := Split * nat.

Section Data.
Context `{C : Carrier}.

(** The config mapping.  The two optional keys are the ones [main] fills in
    with [setdefault]. *)
Record Config := {
  dtype : string;
  eval_iters : Z;
  max_iters : Z;
  gradient_accumulation_steps : Z;
  grad_clip : tval;
  eval_interval : Z;
  log_interval : Z;
  always_save_checkpoint : bool;
  out_dir : string;
  learning_rate : tval;
  weight_decay : tval;
  beta1 : tval;
  beta2 : tval;
  cfg_iter_num : option Z;
  cfg_best_val_loss : option tval;
  cfg_extra : Extra;
}.

Record ParamGroup := { lr : tval; group_rest : GroupRest }.

Record Optimizer := { param_groups : list ParamGroup; opt_state : OptState }.

(** What the forward call writes into the batch. *)
Record Output := { logits : Logits; loss : tval }.

(** torch.cuda.amp.GradScaler *)
Record Scaler := { enabled : bool; amp_state : AmpState }.

End Data.

(** ** Operations of the external libraries *)

Class Library `{C : Carrier} := {
  (* Python's [<] and [!= 0.0] on scalars, the literals, Tensor.mean *)
  tlt : tval → tval → bool;
  tne0 : tval → bool;
  tzero : tval;
  t1e9 : tval;
  tmean : list tval → tval;
  (* utils and models.transformer *)
  setup : Config → Ctx;
  init_transformer : Config → Weights * bool;  (* parameters, model.training *)
  create_lr_scheduler : Config → Z → tval;
  (* data.openai_summarize_tldr: the streams behind the two loaders *)
  get_prompt_dataloaders : Config → Split → nat → Data;
  (* torch *)
  AdamW : Weights → tval → tval → tval * tval → Optimizer;
  forward : Ctx → bool → bool → Weights → Data → Output * Ret;
  grad_none : Grad;
  backward : Weights → Data → tval → Grad → Grad;
  clip_grad_norm_ : tval → Grad → Grad;
  optimizer_step : Optimizer → Weights → Grad → Optimizer * Weights;
  (* an enabled GradScaler *)
  amp_init : AmpState;
  amp_scale : AmpState → tval → tval;
  amp_unscale : AmpState → Grad → AmpState * Grad;
  amp_step : AmpState → Optimizer → Weights → Grad →
             AmpState * Optimizer * Weights * Grad;
  amp_update : AmpState → AmpState;
  (* transformers and evaluate *)
  argmax_decode : Logits → Texts;
  labels_decode : Data → Texts;
  rouge_compute : Texts → Texts → Rouge;
  rouge_get1 : Rouge → tval;
}.

(** ** The state the script acts on, and the log of its calls *)

Section Model.
Context `{L : Library}.

(** The values of the checkpoint dict. *)
Inductive CkVal :=
| VOptimizer (o : Optimizer)   (* optimizer.state_dict() *)
| VInt (n : Z)
| VFloat (v : tval)
| VConfig (c : Config).

(** The arguments of the three [print] calls (the step time is left out). *)
Inductive Msg :=
| MsgEval (it : Z) (train_loss val_loss : tval)
| MsgEvalRouge (it : Z) (train_loss val_loss train_rouge val_rouge : tval)
| MsgSaving (dir : string)
| MsgIter (it : Z) (lossf : tval).

(** One constructor per call the script makes on an imported object. *)
Inductive Event :=
| EvLoadConfig (path : string)
| EvSetup
| EvInitTransformer
| EvGradScaler (en : bool)
| EvAdamW
| EvCreateLrScheduler
| EvRougeLoad
| EvTokenizer
| EvGetPromptDataloaders
| EvNext (r : ref)
| EvForward (r : ref) (training_mode grad_on : bool)
| EvGetLoss (r : ref)
| EvScale (v : tval)
| EvBackward (r : ref) (v : tval)
| EvUnscale
| EvClipGradNorm (c : tval)
| EvScalerStep (o : Optimizer) (g : Grad)
| EvOptimizerStep (o : Optimizer) (g : Grad)
| EvScalerUpdate
| EvZeroGrad
| EvTime
| EvModelEval
| EvModelTrain
| EvEstimateLoss (dataloader : Split) (return_rouge : bool)
| EvComputeRouge (r : ref)
| EvPrint (m : Msg)
| EvSavePretrained (dir : string) (w : Weights)
| EvTorchSave (ck : gmap string CkVal) (path : string)
| EvSubplots
| EvTitle (s : string)
| EvPlot (xs : list Z) (ys : list tval) (label : string)
| EvLegend
| EvSavefig (path : string).

Record World := {
  training : bool;            (* model.training *)
  weights : Weights;
  grads : Grad;
  grad_enabled : bool;        (* torch.is_grad_enabled() *)
  optimizer : Optimizer;
  scaler : Scaler;
  heap : gmap ref Output;     (* the fields the forward call wrote, per batch object *)
  train_pos : nat;            (* how many batches each loader has yielded *)
  val_pos : nat;
}.

Definition set_training (b : bool) (w : World) : World :=
  {| training := b; weights := weights w; grads := grads w;
     grad_enabled := grad_enabled w; optimizer := optimizer w;
     scaler := scaler w; heap := heap w; train_pos := train_pos w;
     val_pos := val_pos w |}.

Definition set_weights (x : Weights) (w : World) : World :=
  {| training := training w; weights := x; grads := grads w;
     grad_enabled := grad_enabled w; optimizer := optimizer w;
     scaler := scaler w; heap := heap w; train_pos := train_pos w;
     val_pos := val_pos w |}.

Definition set_grads (g : Grad) (w : World) : World :=
  {| training := training w; weights := weights w; grads := g;
     grad_enabled := grad_enabled w; optimizer := optimizer w;
     scaler := scaler w; heap := heap w; train_pos := train_pos w;
     val_pos := val_pos w |}.

Definition set_grad_enabled (b : bool) (w : World) : World :=
  {| training := training w; weights := weights w; grads := grads w;
     grad_enabled := b; optimizer := optimizer w;
     scaler := scaler w; heap := heap w; train_pos := train_pos w;
     val_pos := val_pos w |}.

Definition set_optimizer (o : Optimizer) (w : World) : World :=
  {| training := training w; weights := weights w; grads := grads w;
     grad_enabled := grad_enabled w; optimizer := o;
     scaler := scaler w; heap := heap w; train_pos := train_pos w;
     val_pos := val_pos w |}.

Definition set_scaler (s : Scaler) (w : World) : World :=
  {| training := training w; weights := weights w; grads := grads w;
     grad_enabled := grad_enabled w; optimizer := optimizer w;
     scaler := s; heap := heap w; train_pos := train_pos w;
     val_pos := val_pos w |}.

Definition set_heap (h : gmap ref Output) (w : World) : World :=
  {| training := training w; weights := weights w; grads := grads w;
     grad_enabled := grad_enabled w; optimizer := optimizer w;
     scaler := scaler w; heap := h; train_pos := train_pos w;
     val_pos := val_pos w |}.

Definition set_pos (s : Split) (n : nat) (w : World) : World :=
  {| training := training w; weights := weights w; grads := grads w;
     grad_enabled := grad_enabled w; optimizer := optimizer w;
     scaler := scaler w; heap := heap w;
     train_pos := match s with Train => n | Val => train_pos w end;
     val_pos := match s with Train => val_pos w | Val => n end |}.

Definition pos (s : Split) (w : World) : nat :=
  match s with Train => train_pos w | Val => val_pos w end.

(** ** The monad: state, a log, and Python exceptions *)

Inductive Exn :=
| ZeroDivisionError     (* [%] or np.arange with a zero step *)
| UnboundLocalError     (* [batch] read before the inner loop ever ran *)
| RuntimeError          (* torch.zeros with a negative size *)
| AttributeError        (* [batch.loss] before any forward call on the batch *)
| ValueError.           (* ax.plot with x and y of different lengths *)

Record Out (A : Type) := MkOut {
  log : list Event;
  world : World;
  res : Exn + A;
}.
Global Arguments MkOut {A} _ _ _.
Global Arguments log {A} _.
Global Arguments world {A} _.
Global Arguments res {A} _.

Definition M (A : Type) : Type := World → Out A.

Definition ret {A} (a : A) : M A := λ w, MkOut [] w (inr a).

Definition bind {A B} (m : M A) (f : A → M B) : M B := λ w,
  let o := m w in
  match res o with
  | inl e => MkOut (log o) (world o) (inl e)
  | inr a => let o' := f a (world o) in
             MkOut (log o ++ log o') (world o') (res o')
  end.

Definition throw {A} (e : Exn) : M A := λ w, MkOut [] w (inl e).
Definition emit (e : Event) : M unit := λ w, MkOut [e] w (inr tt).
Definition get : M World := λ w, MkOut [] w (inr w).
Definition modify (f : World → World) : M unit := λ w, MkOut [] (f w) (inr tt).

End Model.

Declare Scope M_scope.
Delimit Scope M_scope with M.

Notation "x ← m ; k" := (bind m (λ x, k))
  (at level 20, m at level 100, k at level 200, only parsing) : M_scope.
Notation "' x ← m ; k" := (bind m (λ x, k))
  (at level 20, x pattern, m at level 100, k at level 200, only parsing) : M_scope.
Notation "m ;; k" := (bind m (λ _, k))
  (at level 100, k at level 200, right associativity, only parsing) : M_scope.

(** ** Python and library primitives *)

Section Primitives.
Context `{L : Library}.
Local Open Scope M_scope.

(** [a % b] on Python ints: floored, like [Z.modulo], and raising on zero. *)
Definition py_mod (a b : Z) : M Z :=
  if decide (b = 0) then throw ZeroDivisionError else ret (a `mod` b).

(** [range(lo, hi)] *)
Definition range (lo hi : Z) : list Z := seqZ lo (hi - lo).

(** A [for] loop that rebinds local variables: the body maps the locals
    before an iteration to the locals after it; an exception ends the loop. *)
Fixpoint for_loop {A B} (l : list A) (body : A → B → M B) (b : B) : M B :=
  match l with
  | [] => ret b
  | a :: l' => b' ← body a b; for_loop l' body b'
  end.

(** torch.zeros(n) *)
Definition torch_zeros (n : Z) : M (list tval) :=
  if decide (n < 0) then throw RuntimeError
  else ret (replicate (Z.to_nat n) tzero).

(** np.arange(0, stop, step) on ints *)
Definition np_arange (stop step : Z) : M (list Z) :=
  if decide (step = 0) then throw ZeroDivisionError
  else ret ((λ i, i * step) <$> seqZ 0 (- ((- stop) `div` step))).

(** ax.plot(xs, ys, label=...): matplotlib raises ValueError unless [xs] and
    [ys] have the same length. *)
Definition ax_plot (xs : list Z) (ys : list tval) (label : string) : M unit :=
  if decide (length xs = length ys) then emit (EvPlot xs ys label)
  else throw ValueError.

(** os.path.join(a, b) for a relative [b] *)
Fixpoint ends_with_slash (a : string) : bool :=
  match a with
  | EmptyString => false
  | String c EmptyString => bool_decide (c = "/"%char)
  | String _ a' => ends_with_slash a'
  end.

Definition os_path_join (a b : string) : string :=
  if decide (a = "") then b
  else if ends_with_slash a then a +:+ b
  else a +:+ "/" +:+ b.

(** [@torch.no_grad()]: gradients are off inside the call and the previous
    setting comes back when the call is left, also by an exception. *)
Definition no_grad {A} (m : M A) : M A := λ w,
  let o := m (set_grad_enabled false w) in
  MkOut (log o) (set_grad_enabled (grad_enabled w) (world o)) (res o).

Definition model_eval : M unit :=
  modify (set_training false);; emit EvModelEval.

Definition model_train : M unit :=
  modify (set_training true);; emit EvModelTrain.

(** The environment a run is closed over: the config dict, the autocast
    context, the schedule and the two streams of batches. *)
Record Env := {
  config : Config;
  ctx : Ctx;
  lr_scheduler : Z → tval;
  stream : Split → nat → Data;
}.

Definition batch_data (env : Env) (r : ref) : Data := stream env r.1 r.2.

(** next(dataloader) *)
Definition next (s : Split) : M ref := λ w,
  let r := (s, pos s w) in
  MkOut [EvNext r] (set_pos s (S (pos s w)) w) (inr r).

(** Modelled from the spec: the model's forward call, [with ctx: model(batch)];
    the model is built by models/transformer.py, which is not under src/.
    The spec has the batch "mutated in place by the model's forward call":
    logits and loss are written into the object that was passed in.  What
    the call itself returns is the library's [Ret]. *)
Definition model_call (env : Env) (r : ref) : M Ret := λ w,
  let '(out, rv) := forward (ctx env) (training w) (grad_enabled w)
                            (weights w) (batch_data env r) in
  MkOut [EvForward r (training w) (grad_enabled w)]
        (set_heap (<[r := out]> (heap w)) w) (inr rv).

(** [batch.loss] *)
Definition get_loss (r : ref) : M tval :=
  w ← get;
  match heap w !! r with
  | Some out => emit (EvGetLoss r);; ret (loss out)
  | None => throw AttributeError
  end.

(** [batch.transformer_data.logits] *)
Definition get_logits (r : ref) : M Logits :=
  w ← get;
  match heap w !! r with
  | Some out => ret (logits out)
  | None => throw AttributeError
  end.

(** [loss.backward()] on the loss [v] of batch [r] *)
Definition backward_call (env : Env) (r : ref) (v : tval) : M unit :=
  modify (λ w, set_grads (backward (weights w) (batch_data env r) v (grads w)) w);;
  emit (EvBackward r v).

Definition clip_call (c : tval) : M unit :=
  modify (λ w, set_grads (clip_grad_norm_ c (grads w)) w);;
  emit (EvClipGradNorm c).

(** optimizer.zero_grad(set_to_none=True) *)
Definition zero_grad : M unit :=
  modify (set_grads grad_none);; emit EvZeroGrad.

(** [for param_group in optimizer.param_groups: param_group["lr"] = lr] *)
Definition with_lr (x : tval) (o : Optimizer) : Optimizer :=
  {| param_groups := (λ g, {| lr := x; group_rest := group_rest g |})
                       <$> param_groups o;
     opt_state := opt_state o |}.

Definition set_lr (x : tval) : M unit :=
  modify (λ w, set_optimizer (with_lr x (optimizer w)) w).

End Primitives.

(** ** The gradient scaler *)

Section GradScaler.
Context `{L : Library}.
Local Open Scope M_scope.

(** The effect of optimizer.step() on the world. *)
Definition apply_optimizer_step (w : World) : World :=
  let '(o, x) := optimizer_step (optimizer w) (weights w) (grads w) in
  set_weights x (set_optimizer o w).

(** optimizer.step(), called by the script itself *)
Definition optimizer_step_call : M unit :=
  w ← get;
  emit (EvOptimizerStep (optimizer w) (grads w));;
  modify apply_optimizer_step.

(** Modelled from the spec: torch.cuda.amp.GradScaler, which is PyTorch's and
    not under src/.  The comment at [init_scaler] says what the script relies
    on: with enabled=False the scaler is a no-op, so [scale] hands its
    argument back, [unscale_] and [update] do nothing and [step] is
    optimizer.step().  What an enabled scaler does is left to the [amp_]
    fields of [Library]. *)
Definition scaled (s : Scaler) (v : tval) : tval :=
  if enabled s then amp_scale (amp_state s) v else v.

Definition scaler_scale (v : tval) : M tval :=
  w ← get;
  emit (EvScale v);;
  ret (scaled (scaler w) v).

Definition apply_unscale (w : World) : World :=
  if enabled (scaler w) then
    let '(a, g) := amp_unscale (amp_state (scaler w)) (grads w) in
    set_scaler {| enabled := true; amp_state := a |} (set_grads g w)
  else w.

Definition scaler_unscale_ : M unit :=
  emit EvUnscale;; modify apply_unscale.

Definition apply_scaler_step (w : World) : World :=
  if enabled (scaler w) then
    let '(a, o, x, g) :=
      amp_step (amp_state (scaler w)) (optimizer w) (weights w) (grads w) in
    set_scaler {| enabled := true; amp_state := a |}
      (set_grads g (set_weights x (set_optimizer o w)))
  else apply_optimizer_step w.

Definition scaler_step : M unit :=
  w ← get;
  emit (EvScalerStep (optimizer w) (grads w));;
  modify apply_scaler_step.

Definition apply_scaler_update (w : World) : World :=
  if enabled (scaler w) then
    set_scaler {| enabled := true;
                  amp_state := amp_update (amp_state (scaler w)) |} w
  else w.

Definition scaler_update : M unit :=
  emit EvScalerUpdate;; modify apply_scaler_update.

End GradScaler.

(** ** train.py *)

Section TrainPy.
Context `{L : Library}.
Local Open Scope M_scope.

Definition init_scaler (config : Config) : Scaler :=
  {| enabled := String.eqb (dtype config) "float16"; amp_state := amp_init |}.

Definition compute_rouge (env : Env) (batch_td : ref) : M Rouge :=
  let label_str := labels_decode (batch_data env batch_td) in
  lg ← get_logits batch_td;
  let pred_str := argmax_decode lg in
  emit (EvComputeRouge batch_td);;
  ret (rouge_compute pred_str label_str).

(** The body of [for k in range(config["eval_iters"])]; the locals are
    [losses] and, when ROUGE is asked for, [rouge1]. *)
Definition estimate_loss_body (env : Env) (dataloader : Split)
    (return_rouge : bool) (k : Z) (loc : list tval * option (list tval))
    : M (list tval * option (list tval)) :=
  let '(losses, rouge1) := loc in
  batch ← next dataloader;
  _ ← model_call env batch;
  l ← get_loss batch;
  let losses := <[Z.to_nat k := l]> losses in
  if return_rouge then
    rouge ← compute_rouge env batch;
    ret (losses, (λ r1, <[Z.to_nat k := rouge_get1 rouge]> r1) <$> rouge1)
  else ret (losses, rouge1).

(** The result is [losses.mean()], paired with [rouge1.mean()] when
    [return_rouge] is set. *)
Definition estimate_loss (env : Env) (dataloader : Split)
    (return_rouge : bool) : M (tval * option tval) :=
  no_grad (
    emit (EvEstimateLoss dataloader return_rouge);;
    model_eval;;
    losses ← torch_zeros (eval_iters (config env));
    rouge1 ← (if return_rouge
              then z ← torch_zeros (eval_iters (config env)); ret (Some z)
              else ret None);
    '(losses, rouge1) ←
      for_loop (range 0 (eval_iters (config env)))
               (estimate_loss_body env dataloader return_rouge)
               (losses, rouge1);
    model_train;;
    if return_rouge then ret (tmean losses, tmean <$> rouge1)
    else ret (tmean losses, None)).

Definition create_loss_estimator (env : Env)
    : M (Split → bool → M (tval * option tval)) :=
  emit EvRougeLoad;; emit EvTokenizer;; ret (estimate_loss env).

(** The local variables of [main] that the training loop rebinds. *)
Record Locals := {
  best_val_loss : tval;
  next_batch : ref;
  batch : option ref;         (* unbound until the inner loop has run once *)
  train_losses : list tval;
  val_losses : list tval;
  train_rouges : list tval;
  val_rouges : list tval;
}.

Definition set_best_val_loss (v : tval) (loc : Locals) : Locals :=
  {| best_val_loss := v; next_batch := next_batch loc; batch := batch loc;
     train_losses := train_losses loc; val_losses := val_losses loc;
     train_rouges := train_rouges loc; val_rouges := val_rouges loc |}.

Definition set_batches (b nb : ref) (loc : Locals) : Locals :=
  {| best_val_loss := best_val_loss loc; next_batch := nb; batch := Some b;
     train_losses := train_losses loc; val_losses := val_losses loc;
     train_rouges := train_rouges loc; val_rouges := val_rouges loc |}.

Definition append_train_loss (v : tval) (loc : Locals) : Locals :=
  {| best_val_loss := best_val_loss loc; next_batch := next_batch loc;
     batch := batch loc;
     train_losses := train_losses loc ++ [v]; val_losses := val_losses loc;
     train_rouges := train_rouges loc; val_rouges := val_rouges loc |}.

Definition append_val_loss (v : tval) (loc : Locals) : Locals :=
  {| best_val_loss := best_val_loss loc; next_batch := next_batch loc;
     batch := batch loc;
     train_losses := train_losses loc; val_losses := val_losses loc ++ [v];
     train_rouges := train_rouges loc; val_rouges := val_rouges loc |}.

Definition append_rouges (tr vr : tval) (loc : Locals) : Locals :=
  {| best_val_loss := best_val_loss loc; next_batch := next_batch loc;
     batch := batch loc;
     train_losses := train_losses loc; val_losses := val_losses loc;
     train_rouges := train_rouges loc ++ [tr];
     val_rouges := val_rouges loc ++ [vr] |}.

(** The body of [for _ in range(config["gradient_accumulation_steps"])]. *)
Definition accumulate (env : Env) (_ : Z) (loc : Locals) : M Locals :=
  let batch := next_batch loc in
  _ ← model_call env batch;
  next_batch ← next Train;
  l ← get_loss batch;
  v ← scaler_scale l;
  backward_call env batch v;;
  ret (set_batches batch next_batch loc).

(** Lines 101 to 126: set the learning rate, accumulate, clip, step. *)
Definition train_step (env : Env) (it : Z) (loc : Locals) : M Locals :=
  let lr := lr_scheduler env it in
  set_lr lr;;
  loc ← for_loop (range 0 (gradient_accumulation_steps (config env)))
                 (accumulate env) loc;
  (if tne0 (grad_clip (config env)) then
     scaler_unscale_;; clip_call (grad_clip (config env))
   else ret tt);;
  scaler_step;;
  scaler_update;;
  zero_grad;;
  ret loc.

(** Lines 155 to 166. *)
Definition checkpoint_dict (env : Env) (it : Z) (best : tval) (w : World)
    : gmap string CkVal :=
  list_to_map [("optimizer", VOptimizer (optimizer w));
               ("iter_num", VInt it);
               ("best_val_loss", VFloat best);
               ("config", VConfig (config env))].

Definition save_checkpoint (env : Env) (it : Z) (best : tval) : M unit :=
  w ← get;
  let checkpoint := checkpoint_dict env it best w in
  emit (EvPrint (MsgSaving (out_dir (config env))));;
  emit (EvSavePretrained (out_dir (config env)) (weights w));;
  emit (EvTorchSave checkpoint
          (os_path_join (out_dir (config env)) "ckpt_status.pt")).

(** Lines 134 to 166: the branch taken when [it % eval_interval == 0]. *)
Definition evaluate_and_checkpoint (env : Env) (it : Z) (loc : Locals)
    : M Locals :=
  '(val_loss, loc) ←
    (if false then
       '(val_loss, val_rouge) ← estimate_loss env Val true;
       '(train_loss, train_rouge) ← estimate_loss env Train true;
       match val_rouge, train_rouge with
       | Some vr, Some tr =>
           emit (EvPrint (MsgEvalRouge it train_loss val_loss tr vr));;
           ret (val_loss, append_train_loss train_loss (append_rouges tr vr loc))
       | _, _ => throw AttributeError
       end
     else
       '(val_loss, _) ← estimate_loss env Val false;
       '(train_loss, _) ← estimate_loss env Train false;
       emit (EvPrint (MsgEval it train_loss val_loss));;
       ret (val_loss, append_train_loss train_loss loc));
  let loc := append_val_loss val_loss loc in
  if tlt val_loss (best_val_loss loc) || always_save_checkpoint (config env) then
    let loc := set_best_val_loss val_loss loc in
    if decide (it > 0) then
      save_checkpoint env it (best_val_loss loc);; ret loc
    else ret loc
  else ret loc.

(** Lines 168 to 172: the [elif] branch. *)
Definition log_train_loss (it : Z) (loc : Locals) : M Locals :=
  match batch loc with
  | None => throw UnboundLocalError
  | Some b =>
      lossf ← get_loss b;
      emit (EvPrint (MsgIter it lossf));;
      ret (append_train_loss lossf loc)
  end.

(** Lines 128 to 172: timing, then evaluation or logging. *)
Definition evaluate_or_log (env : Env) (it : Z) (loc : Locals) : M Locals :=
  emit EvTime;;
  m ← py_mod it (eval_interval (config env));
  if decide (m = 0) then evaluate_and_checkpoint env it loc
  else
    m' ← py_mod it (log_interval (config env));
    if decide (m' = 0) then log_train_loss it loc else ret loc.

(** One iteration of [for it in range(iter_num, config["max_iters"])]. *)
Definition loop_body (env : Env) (it : Z) (loc : Locals) : M Locals :=
  loc ← train_step env it loc;
  evaluate_or_log env it loc.

End TrainPy.

Section Main.
Context `{L : Library}.
Local Open Scope M_scope.

(** [config.setdefault("iter_num", 0)] and
    [config.setdefault("best_val_loss", 1e9)]: the value under the key, and
    the dict with the key filled in. *)
Definition setdefault_iter_num (c : Config) : Z * Config :=
  let v := default 0 (cfg_iter_num c) in
  (v, {| dtype := dtype c; eval_iters := eval_iters c;
         max_iters := max_iters c;
         gradient_accumulation_steps := gradient_accumulation_steps c;
         grad_clip := grad_clip c; eval_interval := eval_interval c;
         log_interval := log_interval c;
         always_save_checkpoint := always_save_checkpoint c;
         out_dir := out_dir c; learning_rate := learning_rate c;
         weight_decay := weight_decay c; beta1 := beta1 c; beta2 := beta2 c;
         cfg_iter_num := Some v; cfg_best_val_loss := cfg_best_val_loss c;
         cfg_extra := cfg_extra c |}).

Definition setdefault_best_val_loss (c : Config) : tval * Config :=
  let v := default t1e9 (cfg_best_val_loss c) in
  (v, {| dtype := dtype c; eval_iters := eval_iters c;
         max_iters := max_iters c;
         gradient_accumulation_steps := gradient_accumulation_steps c;
         grad_clip := grad_clip c; eval_interval := eval_interval c;
         log_interval := log_interval c;
         always_save_checkpoint := always_save_checkpoint c;
         out_dir := out_dir c; learning_rate := learning_rate c;
         weight_decay := weight_decay c; beta1 := beta1 c; beta2 := beta2 c;
         cfg_iter_num := cfg_iter_num c; cfg_best_val_loss := Some v;
         cfg_extra := cfg_extra c |}).

(** The world once lines 68 to 87 have run. *)
Definition init_world (config : Config) : World :=
  let model := init_transformer config in
  {| training := model.2; weights := model.1; grads := grad_none;
     grad_enabled := true;
     optimizer := AdamW model.1 (learning_rate config) (weight_decay config)
                        (beta1 config, beta2 config);
     scaler := init_scaler config; heap := ∅;
     train_pos := 0%nat; val_pos := 0%nat |}.

(** The environment of the loop: the objects built from the config as
    loaded, and the config dict as the two [setdefault] calls leave it. *)
Definition make_env (config : Config) : Env :=
  {| config := (setdefault_best_val_loss (setdefault_iter_num config).2).2;
     ctx := setup config;
     lr_scheduler := create_lr_scheduler config;
     stream := get_prompt_dataloaders config |}.

Definition init_locals (env : Env) (first : ref) : Locals :=
  {| best_val_loss := default t1e9 (cfg_best_val_loss (config env));
     next_batch := first; batch := None;
     train_losses := []; val_losses := [];
     train_rouges := []; val_rouges := [] |}.

(** Lines 68 to 87. *)
Definition init_phase (config : Config) : M unit :=
  emit (EvLoadConfig "config/train.yaml");;
  emit EvSetup;;
  emit EvInitTransformer;;
  emit (EvGradScaler (enabled (init_scaler config)));;
  emit EvAdamW;;
  emit EvCreateLrScheduler;;
  _ ← create_loss_estimator (make_env config);
  emit EvGetPromptDataloaders.

(** Lines 98 to 172. *)
Definition training_loop (env : Env) (loc : Locals) : M Locals :=
  for_loop (range (default 0 (cfg_iter_num (config env)))
                  (max_iters (config env)))
           (loop_body env) loc.

(** Lines 174 to 189. *)
Definition plot_phase (env : Env) (loc : Locals) : M unit :=
  emit EvSubplots;;
  emit (EvTitle "Supervised Fine Tuning: Loss");;
  xs ← np_arange (max_iters (config env)) (log_interval (config env));
  ax_plot xs (train_losses loc) "train loss";;
  xs ← np_arange (max_iters (config env)) (eval_interval (config env));
  ax_plot xs (val_losses loc) "valid loss";;
  emit EvLegend;;
  emit (EvSavefig "figures/train_curve.png");;
  if false then
    emit EvSubplots;;
    emit (EvTitle "Supervised Fine Tuning: Rouge");;
    xs ← np_arange (max_iters (config env)) (eval_interval (config env));
    ax_plot xs (train_rouges loc) "train rouge";;
    xs ← np_arange (max_iters (config env)) (eval_interval (config env));
    ax_plot xs (val_rouges loc) "valid rouge";;
    emit EvLegend;;
    emit (EvSavefig "figures/train_curve_rouge.png")
  else ret tt.

(** [main], from the config that [load_and_update_config] returns. *)
Definition main_body (config : Config) : M unit :=
  init_phase config;;
  let env := make_env config in
  emit EvTime;;
  first ← next Train;
  loc ← training_loop env (init_locals env first);
  plot_phase env loc.

Definition main (config : Config) : Out unit :=
  main_body config (init_world config).

(** The loop as [main] runs it: the first batch has been fetched. *)
Definition main_loop (cfg : Config) : Out Locals :=
  training_loop (make_env cfg) (init_locals (make_env cfg) (Train, 0%nat))
                (set_pos Train 1 (init_world cfg)).

End Main.

(** ** Training without a gradient scaler

    The loop as it reads with [batch.loss.backward()] and [optimizer.step()]
    in place of the scaler's four calls; the scaled loop is compared with it
    below. *)

Section Unscaled.
Context `{L : Library}.
Local Open Scope M_scope.

Definition unscaled_accumulate (env : Env) (_ : Z) (loc : Locals) : M Locals :=
  let batch := next_batch loc in
  _ ← model_call env batch;
  next_batch ← next Train;
  l ← get_loss batch;
  backward_call env batch l;;
  ret (set_batches batch next_batch loc).

Definition unscaled_train_step (env : Env) (it : Z) (loc : Locals) : M Locals :=
  let lr := lr_scheduler env it in
  set_lr lr;;
  loc ← for_loop (range 0 (gradient_accumulation_steps (config env)))
                 (unscaled_accumulate env) loc;
  (if tne0 (grad_clip (config env)) then clip_call (grad_clip (config env))
   else ret tt);;
  optimizer_step_call;;
  zero_grad;;
  ret loc.

Definition unscaled_loop_body (env : Env) (it : Z) (loc : Locals) : M Locals :=
  loc ← unscaled_train_step env it loc;
  evaluate_or_log env it loc.

Definition unscaled_training_loop (env : Env) (loc : Locals) : M Locals :=
  for_loop (range (default 0 (cfg_iter_num (config env)))
                  (max_iters (config env)))
           (unscaled_loop_body env) loc.

(** What a scaler call amounts to when the scaler is a no-op wrapper. *)
Definition erase_scaler (e : Event) : list Event :=
  match e with
  | EvGradScaler _ | EvScale _ | EvUnscale | EvScalerUpdate => []
  | EvScalerStep o g => [EvOptimizerStep o g]
  | _ => [e]
  end.

(** The log with every scaler call replaced by what it amounts to when the
    scaler is disabled. *)
Definition erase_log (lg : list Event) : list Event := lg ≫= erase_scaler.

(** Same result, same world, same calls up to the scaler's. *)
Definition sim {A} (o o' : Out A) : Prop :=
  res o = res o' ∧ world o = world o' ∧ erase_log (log o) = log o'.

End Unscaled.

(** ** The forward call's return value *)

Section WithRet.
Context `{L : Library}.

(** The library with the forward call's return value passed through [f];
    what the call writes into the batch is as before. *)
Definition with_ret (f : Ret → Ret) : Library := {|
  tlt := tlt; tne0 := tne0; tzero := tzero; t1e9 := t1e9; tmean := tmean;
  setup := setup; init_transformer := init_transformer;
  create_lr_scheduler := create_lr_scheduler;
  get_prompt_dataloaders := get_prompt_dataloaders;
  AdamW := AdamW;
  forward := λ c tm ge x d, ((forward c tm ge x d).1, f (forward c tm ge x d).2);
  grad_none := grad_none; backward := backward;
  clip_grad_norm_ := clip_grad_norm_; optimizer_step := optimizer_step;
  amp_init := amp_init; amp_scale := amp_scale; amp_unscale := amp_unscale;
  amp_step := amp_step; amp_update := amp_update;
  argmax_decode := argmax_decode; labels_decode := labels_decode;
  rouge_compute := rouge_compute; rouge_get1 := rouge_get1 |}.

End WithRet.

(** ** Reading the log *)

Section Reading.
Context `{L : Library}.

(** For each [scaler.step] call of a log, the number of backward passes
    since the call before it. *)
Fixpoint passes_per_step (acc : nat) (l : list Event) : list nat :=
  match l with
  | [] => []
  | EvBackward _ _ :: l' => passes_per_step (S acc) l'
  | EvScalerStep _ _ :: l' => acc :: passes_per_step 0 l'
  | _ :: l' => passes_per_step acc l'
  end.

(** The backward passes still open at the end of a log. *)
Fixpoint open_passes (acc : nat) (l : list Event) : nat :=
  match l with
  | [] => acc
  | EvBackward _ _ :: l' => open_passes (S acc) l'
  | EvScalerStep _ _ :: l' => open_passes 0 l'
  | _ :: l' => open_passes acc l'
  end.

(** The arguments of the backward calls of a log, in order. *)
Fixpoint backward_args (l : list Event) : list (ref * tval) :=
  match l with
  | [] => []
  | EvBackward r v :: l' => (r, v) :: backward_args l'
  | _ :: l' => backward_args l'
  end.

(** The gradients once the backward calls [bs] have added to [g]. *)
Definition accumulated (env : Env) (x : Weights) (bs : list (ref * tval))
    (g : Grad) : Grad :=
  fold_left (λ g p, backward x (batch_data env p.1) p.2 g) bs g.

Definition is_scaler_step (e : Event) : bool :=
  match e with EvScalerStep _ _ => true | _ => false end.

Definition is_torch_save (e : Event) : bool :=
  match e with EvTorchSave _ _ => true | _ => false end.

Definition is_init_event (e : Event) : bool :=
  match e with
  | EvLoadConfig _ | EvSetup | EvInitTransformer | EvGradScaler _ | EvAdamW
  | EvCreateLrScheduler | EvRougeLoad | EvTokenizer
  | EvGetPromptDataloaders => true
  | _ => false
  end.

Definition is_eval_event (e : Event) : bool :=
  match e with
  | EvEstimateLoss _ _ | EvModelEval | EvModelTrain | EvComputeRouge _ => true
  | _ => false
  end.

Definition is_checkpoint_event (e : Event) : bool :=
  match e with
  | EvSavePretrained _ _ | EvTorchSave _ _ => true
  | _ => false
  end.

Definition is_plot_event (e : Event) : bool :=
  match e with
  | EvSubplots | EvTitle _ | EvPlot _ _ _ | EvLegend | EvSavefig _ => true
  | _ => false
  end.

(** The losses [estimate_loss] reads on the next [eval_iters] batches of a
    loader: forward calls in eval mode with gradients off. *)
Definition eval_losses (env : Env) (s : Split) (w : World) : list tval :=
  (λ k, loss (forward (ctx env) false false (weights w)
                      (stream env s (pos s w + k)%nat)).1)
    <$> seq 0 (Z.to_nat (eval_iters (config env))).

(** [b] is a least element of [l] for Python's [<]. *)
Definition is_min (b : tval) (l : list tval) : Prop :=
  b ∈ l ∧ ∀ x, x ∈ l → tlt x b = false.

(** min(b, v) as Python computes it. *)
Definition py_min (b v : tval) : tval := if tlt v b then v else b.

(** The batches the forward calls of a log were given, in order. *)
Fixpoint forwarded (l : list Event) : list ref :=
  match l with
  | [] => []
  | EvForward r _ _ :: l' => r :: forwarded l'
  | _ :: l' => forwarded l'
  end.

(** The [n] batches a loader hands out from position [k] on. *)
Definition batches (s : Split) (k n : nat) : list ref :=
  (λ i, (s, i)) <$> seq k n.

(** The validation losses a log reports, in order: the [val_loss] of each
    print of line 146. *)
Fixpoint reported_val_losses (l : list Event) : list tval :=
  match l with
  | [] => []
  | EvPrint (MsgEval _ _ val_loss) :: l' => val_loss :: reported_val_losses l'
  | _ :: l' => reported_val_losses l'
  end.

(** The length of np.arange(0, stop, step). *)
Definition arange_length (stop step : Z) : nat :=
  Z.to_nat (- ((- stop) `div` step)).

(** The iterations that add a point to the training curve (lines 150 and
    172) and to the validation curve (line 151). *)
Definition train_points (c : Config) (its : list Z) : nat :=
  length (filter (λ it, it `mod` eval_interval c = 0 ∨
                        it `mod` log_interval c = 0) its).

Definition val_points (c : Config) (its : list Z) : nat :=
  length (filter (λ it, it `mod` eval_interval c = 0) its).

(** Whether each curve of lines 178 and 179 has as many points as its x
    axis. *)
Definition curves_fit (c : Config) : bool :=
  bool_decide
    (arange_length (max_iters c) (log_interval c) =
     train_points c (range (default 0 (cfg_iter_num c)) (max_iters c))) &&
  bool_decide
    (arange_length (max_iters c) (eval_interval c) =
     val_points c (range (default 0 (cfg_iter_num c)) (max_iters c))).

End Reading.

(** ** A small instance to run the script on

    Scalars are integers; the loss of a batch is its datum minus the number
    of optimizer steps taken so far, so the validation loss improves at
    every evaluation. *)

Module Fixture.

#[export] Instance carrier : Carrier := {|
  tval := Z; Weights := Z; Grad := list Z; OptState := nat;
  GroupRest := unit; Logits := Z; Data := Z; Ctx := unit; Extra := unit;
  AmpState := Z; Ret := unit; Texts := Z; Rouge := Z |}.

Definition mean (l : list Z) : Z := foldr Z.add 0 l `div` Z.of_nat (length l).

#[export] Instance library : Library := {|
  tlt := Z.ltb;
  tne0 := λ x, negb (Z.eqb x 0);
  tzero := 0;
  t1e9 := 1000000000;
  tmean := mean;
  setup := λ _, tt;
  init_transformer := λ _, (0, true);
  create_lr_scheduler := λ _ it, 100 - it;
  get_prompt_dataloaders := λ _ s i,
    match s with Train => 50 | Val => 60 end + Z.of_nat i;
  AdamW := λ _ x _ _,
    {| param_groups := [{| lr := x; group_rest := tt |}]; opt_state := 0%nat |};
  forward := λ _ _ _ x d, ({| logits := d; loss := d - 10 * x |}, tt);
  grad_none := [];
  backward := λ _ _ v g, g ++ [v];
  clip_grad_norm_ := λ c g, Z.min c <$> g;
  optimizer_step := λ o x _,
    ({| param_groups := param_groups o; opt_state := S (opt_state o) |}, x + 1);
  amp_init := 2;
  amp_scale := λ a v, a * v;
  amp_unscale := λ a g, (a, (λ v, v `div` a) <$> g);
  amp_step := λ a o x g,
    (a, {| param_groups := param_groups o; opt_state := S (opt_state o) |},
     x + 1, g);
  amp_update := λ a, a;
  argmax_decode := λ x, x;
  labels_decode := λ d, d;
  rouge_compute := λ a b, a - b;
  rouge_get1 := λ r, r |}.

Definition cfg (iter_num max_it gas ev_int log_int ev_iters : Z)
    (always : bool) (dt : string) : Config :=
  {| dtype := dt; eval_iters := ev_iters; max_iters := max_it;
     gradient_accumulation_steps := gas; grad_clip := 0;
     eval_interval := ev_int; log_interval := log_int;
     always_save_checkpoint := always; out_dir := "out";
     learning_rate := 3; weight_decay := 0; beta1 := 0; beta2 := 0;
     cfg_iter_num := Some iter_num; cfg_best_val_loss := None;
     cfg_extra := tt |}.

End Fixture.

(** * Properties *)

Section Laws.
Context `{L : Library}.
Local Open Scope M_scope.

(** ** How the monad runs *)

Lemma bind_ok {A B} (m : M A) (f : A → M B) w a :
  res (m w) = inr a →
  bind m f w = MkOut (log (m w) ++ log (f a (world (m w))))
                     (world (f a (world (m w)))) (res (f a (world (m w)))).
Proof. intros H. unfold bind. by rewrite H. Qed.

Lemma bind_err {A B} (m : M A) (f : A → M B) w e :
  res (m w) = inl e →
  bind m f w = MkOut (log (m w)) (world (m w)) (inl e).
Proof. intros H. unfold bind. by rewrite H. Qed.

Lemma bind_out {A B} (m : M A) (f : A → M B) w lg w' a :
  m w = MkOut lg w' (inr a) →
  bind m f w = MkOut (lg ++ log (f a w')) (world (f a w')) (res (f a w')).
Proof. intros H. unfold bind. by rewrite H. Qed.

Lemma out_eta {A} (o : Out A) : o = MkOut (log o) (world o) (res o).
Proof. by destruct o. Qed.

Lemma bind_ret {A B} (a : A) (k : A → M B) w : bind (ret a) k w = k a w.
Proof. unfold bind, ret. simpl. by destruct (k a w). Qed.

Lemma bind_emit {B} e (k : unit → M B) w :
  bind (emit e) k w = MkOut (e :: log (k tt w)) (world (k tt w)) (res (k tt w)).
Proof. done. Qed.

Lemma bind_throw {A B} e (k : A → M B) w :
  bind (throw e) k w = MkOut [] w (inl e).
Proof. done. Qed.

Lemma bind_modify {B} f (k : unit → M B) w : bind (modify f) k w = k tt (f w).
Proof. unfold bind, modify. simpl. by destruct (k tt (f w)). Qed.

Lemma bind_get {B} (k : World → M B) w : bind get k w = k w w.
Proof. unfold bind, get. simpl. by destruct (k w w). Qed.

Lemma bind_assoc {A B D} (m : M A) (f : A → M B) (g : B → M D) w :
  bind (bind m f) g w = bind m (λ a, bind (f a) g) w.
Proof.
  unfold bind. destruct (res (m w)) as [e|a]; simpl; [done|].
  destruct (res (f a (world (m w)))) as [e|b]; simpl; [done|].
  by rewrite app_assoc.
Qed.

End Laws.

(** Steps through the primitive calls at the head of a computation. *)
Ltac run :=
  repeat (rewrite bind_assoc || rewrite bind_ret || rewrite bind_emit ||
          rewrite bind_throw || rewrite bind_modify || rewrite bind_get);
  cbn [log world res].

Section Runs.
Context `{L : Library}.
Local Open Scope M_scope.

(** ** One accumulation pass *)

Definition pass_loss (env : Env) (loc : Locals) (w : World) : tval :=
  loss (forward (ctx env) (training w) (grad_enabled w) (weights w)
                (batch_data env (next_batch loc))).1.

Definition pass_scaled (env : Env) (loc : Locals) (w : World) : tval :=
  scaled (scaler w) (pass_loss env loc w).

Definition pass_world (env : Env) (loc : Locals) (w : World) : World :=
  set_grads
    (backward (weights w) (batch_data env (next_batch loc))
              (pass_scaled env loc w) (grads w))
    (set_pos Train (S (train_pos w))
       (set_heap
          (<[next_batch loc :=
               (forward (ctx env) (training w) (grad_enabled w) (weights w)
                        (batch_data env (next_batch loc))).1]> (heap w)) w)).

Definition pass_log (env : Env) (loc : Locals) (w : World) : list Event :=
  [EvForward (next_batch loc) (training w) (grad_enabled w);
   EvNext (Train, train_pos w);
   EvGetLoss (next_batch loc);
   EvScale (pass_loss env loc w);
   EvBackward (next_batch loc) (pass_scaled env loc w)].

Lemma accumulate_run env k loc w :
  accumulate env k loc w =
  MkOut (pass_log env loc w) (pass_world env loc w)
        (inr (set_batches (next_batch loc) (Train, train_pos w) loc)).
Proof.
  unfold accumulate, pass_log, pass_world, pass_scaled, pass_loss.
  unfold bind, model_call, next, get_loss, scaler_scale, backward_call.
  destruct (forward _ _ _ _ _) as [out rv]. simpl.
  rewrite lookup_insert_eq. simpl. reflexivity.
Qed.

(** ** The accumulation loop *)

(** The five calls of one pass: the loss is read from the batch the forward
    call was given, and what is backpropagated is that loss as the scaler
    [sc] scales it. *)
Definition is_pass (sc : Scaler) (lg : list Event) : Prop :=
  ∃ r tm ge nb l,
    lg = [EvForward r tm ge; EvNext nb; EvGetLoss r; EvScale l;
          EvBackward r (scaled sc l)].

(** What the training half of an iteration leaves alone in the locals. *)
Definition same_records (loc loc' : Locals) : Prop :=
  best_val_loss loc' = best_val_loss loc ∧
  train_losses loc' = train_losses loc ∧
  val_losses loc' = val_losses loc.

(** What the accumulation loop leaves alone in the world. *)
Definition same_model (w w' : World) : Prop :=
  optimizer w' = optimizer w ∧ scaler w' = scaler w ∧
  weights w' = weights w ∧ training w' = training w ∧
  grad_enabled w' = grad_enabled w ∧ val_pos w' = val_pos w.

Lemma pass_log_is_pass env loc w : is_pass (scaler w) (pass_log env loc w).
Proof. unfold is_pass, pass_log, pass_scaled. by repeat eexists. Qed.

Lemma accumulate_loop_run env (l : list Z) : ∀ loc w,
  ∃ loc' passes w',
    for_loop l (accumulate env) loc w = MkOut (concat passes) w' (inr loc') ∧
    length passes = length l ∧
    Forall (is_pass (scaler w)) passes ∧
    same_records loc loc' ∧
    same_model w w' ∧
    grads w' =
      accumulated env (weights w) (backward_args (concat passes)) (grads w) ∧
    (l ≠ [] → ∃ b, batch loc' = Some b ∧ is_Some (heap w' !! b)).
Proof.
  induction l as [|k l IH]; intros loc w.
  - exists loc, [], w. simpl. by split_and!.
  - simpl for_loop. rewrite (bind_out _ _ _ _ _ _ (accumulate_run env k loc w)).
    destruct (IH (set_batches (next_batch loc) (Train, train_pos w) loc)
                 (pass_world env loc w))
      as (loc' & passes & w' & Hout & Hlen & Hall & Hrec & Hmod & Hg & Hb).
    exists loc', (pass_log env loc w :: passes), w'. rewrite Hout. simpl.
    destruct Hrec as (Hr1 & Hr2 & Hr3).
    destruct Hmod as (Hm1 & Hm2 & Hm3 & Hm4 & Hm5 & Hm6).
    split_and!.
    + done.
    + by rewrite Hlen.
    + constructor; [apply pass_log_is_pass | done].
    + by split_and!.
    + by split_and!.
    + by rewrite Hg.
    + intros _. destruct l as [|k' l].
      * simpl in Hout. injection Hout as _ <- <-. simpl. eexists.
        split; [done|]. rewrite lookup_insert_eq. by eexists.
      * by apply Hb.
Qed.

(** ** The training half of an iteration *)

Definition clip_log (env : Env) : list Event :=
  if tne0 (grad_clip (config env))
  then [EvUnscale; EvClipGradNorm (grad_clip (config env))] else [].

(** The gradients [g] as [scaler.step] finds them: unscaled and clipped when
    [grad_clip] is set. *)
Definition clipped (env : Env) (w : World) (g : Grad) : Grad :=
  if tne0 (grad_clip (config env)) then
    clip_grad_norm_ (grad_clip (config env))
      (if enabled (scaler w) then (amp_unscale (amp_state (scaler w)) g).2
       else g)
  else g.

Lemma range_length lo hi : length (range lo hi) = Z.to_nat (hi - lo).
Proof. unfold range. apply length_seqZ. Qed.

(** What the scaler's calls leave alone. *)
Definition same_modes (w w' : World) : Prop :=
  training w' = training w ∧ grad_enabled w' = grad_enabled w ∧
  enabled (scaler w') = enabled (scaler w) ∧ heap w' = heap w ∧
  train_pos w' = train_pos w ∧ val_pos w' = val_pos w.

Lemma apply_unscale_modes w : same_modes w (apply_unscale w).
Proof.
  unfold apply_unscale, same_modes.
  destruct (enabled (scaler w)) eqn:He; [|done].
  by destruct (amp_unscale _ _).
Qed.

Lemma apply_unscale_optimizer w : optimizer (apply_unscale w) = optimizer w.
Proof.
  unfold apply_unscale. destruct (enabled (scaler w)); [|done].
  by destruct (amp_unscale _ _).
Qed.

Lemma apply_unscale_grads w :
  grads (apply_unscale w) =
  if enabled (scaler w) then (amp_unscale (amp_state (scaler w)) (grads w)).2
  else grads w.
Proof.
  unfold apply_unscale. destruct (enabled (scaler w)); [|done].
  by destruct (amp_unscale _ _).
Qed.

Lemma apply_scaler_step_modes w : same_modes w (apply_scaler_step w).
Proof.
  unfold apply_scaler_step, apply_optimizer_step, same_modes.
  destruct (enabled (scaler w)) eqn:He.
  - by destruct (amp_step _ _ _ _) as [[[a o] x] g].
  - by destruct (optimizer_step _ _ _).
Qed.

Lemma apply_scaler_update_modes w : same_modes w (apply_scaler_update w).
Proof.
  unfold apply_scaler_update, same_modes.
  by destruct (enabled (scaler w)) eqn:He.
Qed.

Lemma same_modes_trans w1 w2 w3 :
  same_modes w1 w2 → same_modes w2 w3 → same_modes w1 w3.
Proof.
  unfold same_modes. intros (? & ? & ? & ? & ? & ?) (? & ? & ? & ? & ? & ?).
  split_and!; congruence.
Qed.

(** Lines 118 to 126, after the accumulation loop. *)
Lemma clip_and_step_run env (loc : Locals) w :
  ∃ w',
    ((if tne0 (grad_clip (config env)) then
        scaler_unscale_;; clip_call (grad_clip (config env))
      else ret tt);;
     scaler_step;; scaler_update;; zero_grad;; ret loc)%M w =
    MkOut (clip_log env ++
           [EvScalerStep (optimizer w) (clipped env w (grads w));
            EvScalerUpdate; EvZeroGrad]) w' (inr loc) ∧
    grads w' = grad_none ∧ same_modes w w'.
Proof.
  unfold clip_log, clipped.
  unfold bind, scaler_unscale_, clip_call, scaler_step, scaler_update,
    zero_grad, emit, modify, get, ret.
  destruct (tne0 (grad_clip (config env))); simpl.
  - rewrite apply_unscale_optimizer, apply_unscale_grads.
    eexists. split_and!; [done..|].
    eapply same_modes_trans; [apply apply_unscale_modes|].
    eapply same_modes_trans;
      [|eapply same_modes_trans;
          [apply apply_scaler_step_modes|apply apply_scaler_update_modes]].
    done.
  - eexists. split_and!; [done..|].
    eapply same_modes_trans;
      [apply apply_scaler_step_modes|apply apply_scaler_update_modes].
Qed.

Lemma train_step_run env it loc w :
  ∃ loc' passes o g w',
    train_step env it loc w =
      MkOut (concat passes ++ clip_log env ++
             [EvScalerStep o g; EvScalerUpdate; EvZeroGrad]) w' (inr loc') ∧
    length passes = Z.to_nat (gradient_accumulation_steps (config env)) ∧
    Forall (is_pass (scaler w)) passes ∧
    Forall (λ pg, lr pg = lr_scheduler env it) (param_groups o) ∧
    g = clipped env w
          (accumulated env (weights w) (backward_args (concat passes))
                       (grads w)) ∧
    same_records loc loc' ∧
    grads w' = grad_none ∧
    training w' = training w ∧
    grad_enabled w' = grad_enabled w ∧
    enabled (scaler w') = enabled (scaler w) ∧
    (0 < gradient_accumulation_steps (config env) →
     ∃ b, batch loc' = Some b ∧ is_Some (heap w' !! b)).
Proof.
  unfold train_step.
  rewrite (bind_out _ _ _ _ _ _
    (eq_refl : set_lr (lr_scheduler env it) w =
               MkOut [] (set_optimizer (with_lr (lr_scheduler env it)
                                                (optimizer w)) w) (inr tt))).
  cbv beta.
  destruct (accumulate_loop_run env
              (range 0 (gradient_accumulation_steps (config env))) loc
              (set_optimizer (with_lr (lr_scheduler env it) (optimizer w)) w))
    as (loc' & passes & w' & Hout & Hlen & Hall & Hrec & Hmod & Hg & Hb).
  destruct Hmod as (Hm1 & Hm2 & Hm3 & Hm4 & Hm5 & Hm6). simpl in *.
  rewrite range_length, Z.sub_0_r in Hlen.
  rewrite (bind_out _ _ _ _ _ _ Hout). cbv beta.
  destruct (clip_and_step_run env loc' w')
    as (w'' & Hout' & Hg' & Ht & Hge & Hen & Hh & _ & _).
  rewrite Hout'. simpl.
  exists loc', passes, (optimizer w'), (clipped env w' (grads w')), w''.
  split_and!; try done.
  - rewrite Hm1. simpl. apply Forall_fmap. by apply Forall_true.
  - unfold clipped. by rewrite Hg, Hm2.
  - congruence.
  - congruence.
  - congruence.
  - intros Hpos. rewrite Hh. apply Hb. intros Hnil.
    apply (f_equal length) in Hnil.
    rewrite range_length in Hnil. simpl in Hnil. lia.
Qed.

(** ** estimate_loss *)

(** The calls [estimate_loss] makes per batch, with the mode and the
    gradient switch the forward call ran under. *)
Definition is_batch_event (tm ge : bool) (e : Event) : Prop :=
  match e with
  | EvNext _ | EvGetLoss _ | EvComputeRouge _ => True
  | EvForward _ tm' ge' => tm' = tm ∧ ge' = ge
  | _ => False
  end.

(** The loss the forward call writes for the [k]-th next batch of a loader. *)
Definition batch_loss (env : Env) (s : Split) (w : World) (k : nat) : tval :=
  loss (forward (ctx env) (training w) (grad_enabled w) (weights w)
                (stream env s (pos s w + k)%nat)).1.

(** What evaluation leaves alone. *)
Definition same_training_state (w w' : World) : Prop :=
  weights w' = weights w ∧ grads w' = grads w ∧
  optimizer w' = optimizer w ∧ scaler w' = scaler w.

Lemma estimate_loss_body_run env s rr k losses rouge1 w :
  ∃ lg w' rouge1',
    estimate_loss_body env s rr k (losses, rouge1) w =
      MkOut lg w'
        (inr (<[Z.to_nat k := batch_loss env s w 0]> losses, rouge1')) ∧
    Forall (is_batch_event (training w) (grad_enabled w)) lg ∧
    same_training_state w w' ∧
    training w' = training w ∧ grad_enabled w' = grad_enabled w ∧
    pos s w' = S (pos s w) ∧
    (rouge1 = None → rouge1' = None).
Proof.
  unfold estimate_loss_body, batch_loss.
  unfold bind, next, model_call, get_loss, compute_rouge, get_logits,
    emit, get, ret, batch_data.
  rewrite Nat.add_0_r. cbn.
  destruct (forward _ _ _ _ _) as [out rv]. cbn.
  rewrite lookup_insert_eq. simpl.
  destruct rr; simpl.
  - unfold bind, throw. simpl. rewrite lookup_insert_eq. simpl.
    eexists _, _, _. split; [done|].
    split_and!; try by destruct s.
    + repeat constructor.
    + by intros ->.
  - eexists _, _, _. split; [done|].
    split_and!; try by destruct s.
    repeat constructor.
Qed.

Lemma estimate_loss_loop_run env s rr (m : nat) : ∀ (i : nat) losses rouge1 w,
  length losses = (i + m)%nat →
  ∃ lg w' rouge1',
    for_loop (seqZ (Z.of_nat i) (Z.of_nat m)) (estimate_loss_body env s rr)
             (losses, rouge1) w =
      MkOut lg w'
        (inr (take i losses ++ (batch_loss env s w <$> seq 0 m), rouge1')) ∧
    Forall (is_batch_event (training w) (grad_enabled w)) lg ∧
    same_training_state w w' ∧
    training w' = training w ∧ grad_enabled w' = grad_enabled w ∧
    (rouge1 = None → rouge1' = None).
Proof.
  induction m as [|m IH]; intros i losses rouge1 w Hlen.
  - rewrite seqZ_nil by lia. simpl.
    exists [], w, rouge1. rewrite app_nil_r, take_ge by lia.
    by split_and!.
  - rewrite seqZ_cons by lia.
    replace (Z.succ (Z.of_nat i)) with (Z.of_nat (S i)) by lia.
    replace (Z.pred (Z.of_nat (S m))) with (Z.of_nat m) by lia.
    simpl for_loop.
    destruct (estimate_loss_body_run env s rr (Z.of_nat i) losses rouge1 w)
      as (lg1 & w1 & r1 & Hout1 & Hall1 & Hsame1 & Ht1 & Hg1 & Hpos1 & Hn1).
    rewrite (bind_out _ _ _ _ _ _ Hout1). cbv beta.
    rewrite Nat2Z.id.
    destruct (IH (S i) (<[i := batch_loss env s w 0]> losses) r1 w1)
      as (lg2 & w2 & r2 & Hout2 & Hall2 & Hsame2 & Ht2 & Hg2 & Hn2).
    { rewrite length_insert. lia. }
    rewrite Hout2. simpl.
    exists (lg1 ++ lg2), w2, r2. split_and!.
    + f_equal. f_equal. f_equal.
      rewrite (take_S_r _ _ (batch_loss env s w 0)).
      2:{ apply list_lookup_insert_eq. lia. }
      rewrite take_insert_ge by lia. rewrite <- app_assoc. f_equal.
      simpl. f_equal. rewrite <- fmap_S_seq, <- list_fmap_compose.
      apply list_fmap_ext. intros _ k _. unfold batch_loss. simpl.
      destruct Hsame1 as (-> & _). rewrite Ht1, Hg1, Hpos1.
      do 4 f_equal. lia.
    + apply Forall_app. split; [done|]. by rewrite <- Ht1, <- Hg1.
    + destruct Hsame1 as (? & ? & ? & ?), Hsame2 as (? & ? & ? & ?).
      unfold same_training_state. split_and!; congruence.
    + congruence.
    + congruence.
    + auto.
Qed.

Lemma eval_losses_batch_loss env s w w0 :
  training w0 = false → grad_enabled w0 = false →
  weights w0 = weights w → pos s w0 = pos s w →
  batch_loss env s w0 <$> seq 0 (Z.to_nat (eval_iters (config env))) =
  eval_losses env s w.
Proof.
  intros Ht Hg Hw Hp. unfold eval_losses. apply list_fmap_ext.
  intros _ k _. unfold batch_loss. by rewrite Ht, Hg, Hw, Hp.
Qed.

Lemma estimate_loss_raises env s rr w :
  eval_iters (config env) < 0 →
  ∃ w', estimate_loss env s rr w =
        MkOut [EvEstimateLoss s rr; EvModelEval] w' (inl RuntimeError).
Proof.
  intros Hn. unfold estimate_loss, no_grad, torch_zeros.
  destruct (decide (eval_iters (config env) < 0)); [|lia].
  unfold bind, model_eval, emit, modify, throw. simpl. by eexists.
Qed.

Lemma estimate_loss_returns env s rr w :
  0 ≤ eval_iters (config env) →
  ∃ mid w' rg,
    estimate_loss env s rr w =
      MkOut (EvEstimateLoss s rr :: EvModelEval :: mid ++ [EvModelTrain]) w'
            (inr (tmean (eval_losses env s w), rg)) ∧
    Forall (is_batch_event false false) mid ∧
    same_training_state w w' ∧
    training w' = true ∧ grad_enabled w' = grad_enabled w ∧
    (rr = false → rg = None).
Proof.
  intros Hn. unfold estimate_loss, no_grad, torch_zeros, range.
  destruct (decide (eval_iters (config env) < 0)) as [|_]; [lia|].
  rewrite Z.sub_0_r.
  set (w0 := set_training false (set_grad_enabled false w)).
  set (n := Z.to_nat (eval_iters (config env))).
  assert (Hseq : seqZ 0 (eval_iters (config env)) =
                 seqZ (Z.of_nat 0) (Z.of_nat n)).
  { subst n. by rewrite Z2Nat.id by lia. }
  rewrite Hseq.
  destruct (estimate_loss_loop_run env s rr n 0 (replicate n tzero)
              (if rr then Some (replicate n tzero) else None) w0)
    as (mid & w1 & r1 & Hout & Hall & Hsame & Ht & Hg & Hnone).
  { by rewrite length_replicate. }
  rewrite take_0, app_nil_l in Hout. subst n.
  rewrite (eval_losses_batch_loss env s w w0) in Hout
    by (by destruct s).
  destruct Hsame as (Hs1 & Hs2 & Hs3 & Hs4).
  destruct rr.
  - unfold bind, model_eval, model_train, emit, modify, ret. simpl.
    fold w0. rewrite Hout. simpl.
    eexists mid, _, _. split_and!; try done.
  - unfold bind, model_eval, model_train, emit, modify, ret. simpl.
    fold w0. rewrite Hout. simpl.
    eexists mid, _, _. split_and!; try done.
Qed.

(** ** The evaluation half of an iteration *)

(** The log of an [estimate_loss] call that returns. *)
Definition estimate_log (s : Split) (rr : bool) (mid : list Event)
    : list Event :=
  EvEstimateLoss s rr :: EvModelEval :: mid ++ [EvModelTrain].

(** The three calls of lines 162 to 166. *)
Definition save_log (env : Env) (it : Z) (best : tval) (w : World)
    : list Event :=
  [EvPrint (MsgSaving (out_dir (config env)));
   EvSavePretrained (out_dir (config env)) (weights w);
   EvTorchSave (checkpoint_dict env it best w)
               (os_path_join (out_dir (config env)) "ckpt_status.pt")].

(** The test of line 153. *)
Definition improves (env : Env) (val_loss : tval) (loc : Locals) : bool :=
  tlt val_loss (best_val_loss loc) || always_save_checkpoint (config env).

(** The locals after lines 150 to 154. *)
Definition evaluated (env : Env) (train_loss val_loss : tval) (loc : Locals)
    : Locals :=
  let loc1 := append_val_loss val_loss (append_train_loss train_loss loc) in
  if improves env val_loss loc then set_best_val_loss val_loss loc1 else loc1.

(** The ways lines 128 to 172 can go. *)
Inductive outcome (env : Env) (it : Z) (loc : Locals) (w : World)
    : Out Locals → Prop :=
| eval_zero_division :
    eval_interval (config env) = 0 →
    outcome env it loc w (MkOut [EvTime] w (inl ZeroDivisionError))
| eval_raises w' :
    eval_interval (config env) ≠ 0 →
    it `mod` eval_interval (config env) = 0 →
    eval_iters (config env) < 0 →
    outcome env it loc w
      (MkOut [EvTime; EvEstimateLoss Val false; EvModelEval] w'
             (inl RuntimeError))
| eval_returns mid1 mid2 train_loss w' :
    eval_interval (config env) ≠ 0 →
    it `mod` eval_interval (config env) = 0 →
    0 ≤ eval_iters (config env) →
    Forall (is_batch_event false false) mid1 →
    Forall (is_batch_event false false) mid2 →
    same_training_state w w' →
    training w' = true →
    grad_enabled w' = grad_enabled w →
    outcome env it loc w
      (MkOut (EvTime :: estimate_log Val false mid1 ++
              estimate_log Train false mid2 ++
              EvPrint (MsgEval it train_loss
                               (tmean (eval_losses env Val w))) ::
              (if improves env (tmean (eval_losses env Val w)) loc
               then if decide (it > 0)
                    then save_log env it (tmean (eval_losses env Val w)) w'
                    else []
               else []))
             w'
             (inr (evaluated env train_loss
                             (tmean (eval_losses env Val w)) loc)))
| log_zero_division :
    eval_interval (config env) ≠ 0 →
    it `mod` eval_interval (config env) ≠ 0 →
    log_interval (config env) = 0 →
    outcome env it loc w (MkOut [EvTime] w (inl ZeroDivisionError))
| log_unbound :
    eval_interval (config env) ≠ 0 →
    it `mod` eval_interval (config env) ≠ 0 →
    log_interval (config env) ≠ 0 →
    it `mod` log_interval (config env) = 0 →
    batch loc = None →
    outcome env it loc w (MkOut [EvTime] w (inl UnboundLocalError))
| log_no_loss b :
    eval_interval (config env) ≠ 0 →
    it `mod` eval_interval (config env) ≠ 0 →
    log_interval (config env) ≠ 0 →
    it `mod` log_interval (config env) = 0 →
    batch loc = Some b →
    heap w !! b = None →
    outcome env it loc w (MkOut [EvTime] w (inl AttributeError))
| log_prints b out :
    eval_interval (config env) ≠ 0 →
    it `mod` eval_interval (config env) ≠ 0 →
    log_interval (config env) ≠ 0 →
    it `mod` log_interval (config env) = 0 →
    batch loc = Some b →
    heap w !! b = Some out →
    outcome env it loc w
      (MkOut [EvTime; EvGetLoss b; EvPrint (MsgIter it (loss out))] w
             (inr (append_train_loss (loss out) loc)))
| log_skips :
    eval_interval (config env) ≠ 0 →
    it `mod` eval_interval (config env) ≠ 0 →
    log_interval (config env) ≠ 0 →
    it `mod` log_interval (config env) ≠ 0 →
    outcome env it loc w (MkOut [EvTime] w (inr loc)).

Lemma evaluate_and_checkpoint_raises env it loc w :
  eval_iters (config env) < 0 →
  ∃ w', evaluate_and_checkpoint env it loc w =
        MkOut [EvEstimateLoss Val false; EvModelEval] w' (inl RuntimeError).
Proof.
  intros Hn. unfold evaluate_and_checkpoint.
  destruct (estimate_loss_raises env Val false w Hn) as (w' & Hout).
  exists w'. unfold bind. rewrite Hout. simpl. done.
Qed.

Lemma evaluate_and_checkpoint_returns env it loc w :
  0 ≤ eval_iters (config env) →
  ∃ mid1 mid2 train_loss w',
    evaluate_and_checkpoint env it loc w =
      MkOut (estimate_log Val false mid1 ++ estimate_log Train false mid2 ++
             EvPrint (MsgEval it train_loss (tmean (eval_losses env Val w))) ::
             (if improves env (tmean (eval_losses env Val w)) loc
              then if decide (it > 0)
                   then save_log env it (tmean (eval_losses env Val w)) w'
                   else []
              else []))
            w'
            (inr (evaluated env train_loss (tmean (eval_losses env Val w))
                            loc)) ∧
    Forall (is_batch_event false false) mid1 ∧
    Forall (is_batch_event false false) mid2 ∧
    same_training_state w w' ∧
    training w' = true ∧ grad_enabled w' = grad_enabled w.
Proof.
  intros Hn. unfold evaluate_and_checkpoint.
  destruct (estimate_loss_returns env Val false w Hn)
    as (mid1 & w1 & rg1 & Hout1 & Hall1 & Hs1 & Ht1 & Hg1 & Hrg1).
  destruct (estimate_loss_returns env Train false w1 Hn)
    as (mid2 & w2 & rg2 & Hout2 & Hall2 & Hs2 & Ht2 & Hg2 & Hrg2).
  exists mid1, mid2, (tmean (eval_losses env Train w1)), w2.
  split_and!; try done.
  - unfold evaluated, improves, save_log, estimate_log, save_checkpoint.
    unfold bind, emit, get, ret. rewrite Hout1. cbn [log world res].
    rewrite Hout2. cbn [log world res]. simpl.
    destruct (tlt _ _ || _); simpl.
    + destruct (decide (it > 0)); simpl.
      * f_equal. rewrite <- !app_assoc. simpl. rewrite <- !app_assoc.
        simpl. done.
      * f_equal. rewrite <- !app_assoc. simpl. rewrite <- !app_assoc.
        simpl. by rewrite ?app_nil_r.
    + f_equal. rewrite <- !app_assoc. simpl. rewrite <- !app_assoc.
      simpl. by rewrite ?app_nil_r.
  - destruct Hs1 as (? & ? & ? & ?), Hs2 as (? & ? & ? & ?).
    unfold same_training_state. split_and!; congruence.
  - congruence.
Qed.

Lemma evaluate_or_log_run env it loc w :
  outcome env it loc w (evaluate_or_log env it loc w).
Proof.
  unfold evaluate_or_log, py_mod.
  destruct (decide (eval_interval (config env) = 0)) as [He|He].
  { run. by apply eval_zero_division. }
  run.
  destruct (decide (it `mod` eval_interval (config env) = 0)) as [Hm|Hm].
  - destruct (Z_lt_le_dec (eval_iters (config env)) 0) as [Hn|Hn].
    + destruct (evaluate_and_checkpoint_raises env it loc w Hn) as (w' & Hout).
      rewrite Hout. cbn [log world res]. by apply eval_raises.
    + destruct (evaluate_and_checkpoint_returns env it loc w Hn)
        as (mid1 & mid2 & tl & w' & Hout & ? & ? & ? & ? & ?).
      rewrite Hout. cbn [log world res]. by apply eval_returns.
  - destruct (decide (log_interval (config env) = 0)) as [Hl|Hl].
    { run. by apply log_zero_division. }
    run.
    destruct (decide (it `mod` log_interval (config env) = 0)) as [Hm'|Hm'].
    + unfold log_train_loss.
      destruct (batch loc) as [b|] eqn:Hb.
      * unfold get_loss. run.
        destruct (heap w !! b) as [out|] eqn:Hh.
        -- run. unfold ret. cbn [log world res]. by eapply log_prints.
        -- run. by eapply log_no_loss.
      * unfold throw. cbn [log world res]. by apply log_unbound.
    + unfold ret. cbn [log world res]. by apply log_skips.
Qed.

(** ** One iteration, and the events of its two halves *)

Definition is_train_event (e : Event) : bool :=
  match e with
  | EvForward _ _ _ | EvNext _ | EvGetLoss _ | EvScale _ | EvBackward _ _
  | EvUnscale | EvClipGradNorm _ | EvScalerStep _ _ | EvScalerUpdate
  | EvZeroGrad => true
  | _ => false
  end.

Definition is_tail_event (e : Event) : bool :=
  match e with
  | EvTime | EvEstimateLoss _ _ | EvModelEval | EvModelTrain | EvNext _
  | EvForward _ false false | EvGetLoss _ | EvComputeRouge _ | EvPrint _
  | EvSavePretrained _ _ | EvTorchSave _ _ => true
  | _ => false
  end.

(** The log of lines 101 to 126. *)
Definition train_log (env : Env) (passes : list (list Event))
    (o : Optimizer) (g : Grad) : list Event :=
  concat passes ++ clip_log env ++
  [EvScalerStep o g; EvScalerUpdate; EvZeroGrad].

Lemma passes_train_events sc passes :
  Forall (is_pass sc) passes →
  Forall (λ e, is_train_event e = true) (concat passes).
Proof.
  induction 1 as [|p ps Hp _ IH]; simpl; [constructor|].
  apply Forall_app. split; [|done].
  destruct Hp as (r & tm & ge & nb & l & ->). by repeat constructor.
Qed.

Lemma train_log_events env sc passes o g :
  Forall (is_pass sc) passes →
  Forall (λ e, is_train_event e = true) (train_log env passes o g).
Proof.
  intros Hp. unfold train_log, clip_log. apply Forall_app. split.
  - by eapply passes_train_events.
  - destruct (tne0 _); by repeat constructor.
Qed.

Lemma batch_events_tail mid :
  Forall (is_batch_event false false) mid →
  Forall (λ e, is_tail_event e = true) mid.
Proof.
  intros Hall. eapply Forall_impl; [exact Hall|].
  intros [] H; simpl in *; try done.
  by destruct H as [-> ->].
Qed.

Lemma estimate_log_tail s rr mid :
  Forall (is_batch_event false false) mid →
  Forall (λ e, is_tail_event e = true) (estimate_log s rr mid).
Proof.
  intros H. unfold estimate_log. repeat constructor.
  apply Forall_app. split; [by apply batch_events_tail|by repeat constructor].
Qed.

Lemma outcome_tail_events env it loc w out :
  outcome env it loc w out → Forall (λ e, is_tail_event e = true) (log out).
Proof.
  destruct 1; cbn [log]; try by repeat constructor.
  constructor; [done|]. apply Forall_app. split; [by apply estimate_log_tail|].
  apply Forall_app. split; [by apply estimate_log_tail|].
  constructor; [done|].
  destruct (improves _ _ _); [|constructor].
  destruct (decide _); [|constructor]. by repeat constructor.
Qed.

Lemma loop_body_run env it loc w :
  ∃ loc1 passes o g w1 out,
    train_step env it loc w =
      MkOut (train_log env passes o g) w1 (inr loc1) ∧
    outcome env it loc1 w1 out ∧
    loop_body env it loc w =
      MkOut (train_log env passes o g ++ log out) (world out) (res out).
Proof.
  destruct (train_step_run env it loc w)
    as (loc1 & passes & o & g & w1 & Hout & _).
  exists loc1, passes, o, g, w1, (evaluate_or_log env it loc1 w1).
  split_and!; [done|apply evaluate_or_log_run|].
  unfold loop_body. by rewrite (bind_out _ _ _ _ _ _ Hout).
Qed.

(** ** What an iteration evaluates, reports and records *)

Lemma forwarded_app l1 l2 :
  forwarded (l1 ++ l2) = forwarded l1 ++ forwarded l2.
Proof.
  induction l1 as [|e l1 IH]; [done|]. destruct e; simpl; by rewrite ?IH.
Qed.

Lemma estimate_loss_body_forwarded env s rr k st w :
  ∃ lg w' st',
    estimate_loss_body env s rr k st w = MkOut lg w' (inr st') ∧
    forwarded lg = [(s, pos s w)] ∧
    pos s w' = S (pos s w).
Proof.
  destruct st as [losses rouge1].
  unfold estimate_loss_body.
  unfold bind, next, model_call, get_loss, compute_rouge, get_logits,
    emit, get, ret, batch_data.
  cbn.
  destruct (forward _ _ _ _ _) as [out rv]. cbn.
  rewrite lookup_insert_eq. simpl.
  destruct rr; simpl.
  - unfold bind, throw. simpl. rewrite lookup_insert_eq. simpl.
    eexists _, _, _. split; [done|]. split; [done|]. by destruct s.
  - eexists _, _, _. split; [done|]. split; [done|]. by destruct s.
Qed.

Lemma estimate_loss_loop_forwarded env s rr (l : list Z) : ∀ st w,
  ∃ lg w' st',
    for_loop l (estimate_loss_body env s rr) st w = MkOut lg w' (inr st') ∧
    forwarded lg = batches s (pos s w) (length l).
Proof.
  induction l as [|k l IH]; intros st w.
  - by exists [], w, st.
  - simpl for_loop.
    destruct (estimate_loss_body_forwarded env s rr k st w)
      as (lg1 & w1 & st1 & Hout1 & Hf1 & Hp1).
    rewrite (bind_out _ _ _ _ _ _ Hout1). cbv beta.
    destruct (IH st1 w1) as (lg2 & w2 & st2 & -> & Hf2).
    cbn [log world res]. eexists _, w2, st2. split; [done|].
    by rewrite forwarded_app, Hf1, Hf2, Hp1.
Qed.

(** The forward calls of [estimate_loss] are on the next [eval_iters]
    batches of its loader, in order. *)
Lemma estimate_loss_forwarded env s rr w :
  forwarded (log (estimate_loss env s rr w)) =
  batches s (pos s w) (Z.to_nat (eval_iters (config env))).
Proof.
  unfold estimate_loss, no_grad, torch_zeros, range.
  destruct (decide (eval_iters (config env) < 0)) as [Hn|Hn].
  - rewrite Z2Nat.nonpos by lia.
    unfold bind, model_eval, emit, modify, throw. by simpl.
  - rewrite Z.sub_0_r.
    set (w0 := set_training false (set_grad_enabled false w)).
    destruct (estimate_loss_loop_forwarded env s rr
                (seqZ 0 (eval_iters (config env)))
                (replicate (Z.to_nat (eval_iters (config env))) tzero,
                 if rr then Some (replicate
                                    (Z.to_nat (eval_iters (config env))) tzero)
                 else None) w0)
      as (lg & w1 & [l1 r1] & Hout & Hf).
    rewrite length_seqZ in Hf.
    replace (pos s w0) with (pos s w) in Hf by (by destruct s).
    destruct rr.
    + unfold bind, model_eval, model_train, emit, modify, ret. simpl.
      fold w0. rewrite Hout. simpl.
      by rewrite forwarded_app, Hf, app_nil_r.
    + unfold bind, model_eval, model_train, emit, modify, ret. simpl.
      fold w0. rewrite Hout. simpl.
      by rewrite forwarded_app, Hf, app_nil_r.
Qed.

Lemma reported_val_losses_app l1 l2 :
  reported_val_losses (l1 ++ l2) =
  reported_val_losses l1 ++ reported_val_losses l2.
Proof.
  induction l1 as [|e l1 IH]; [done|].
  destruct e as [| | | | | | | | | | | | | | | | | | | | | | | | |[]| | | | | | |];
    simpl; by rewrite ?IH.
Qed.

Lemma train_events_report_nothing l :
  Forall (λ e, is_train_event e = true) l → reported_val_losses l = [].
Proof.
  induction 1 as [|e l He _ IH]; [done|]. by destruct e.
Qed.

Lemma batch_events_report_nothing l :
  Forall (is_batch_event false false) l → reported_val_losses l = [].
Proof.
  induction 1 as [|e l He _ IH]; [done|]. by destruct e.
Qed.

Lemma estimate_log_reports_nothing s rr mid :
  Forall (is_batch_event false false) mid →
  reported_val_losses (estimate_log s rr mid) = [].
Proof.
  intros H. unfold estimate_log. cbn [reported_val_losses].
  by rewrite reported_val_losses_app, batch_events_report_nothing.
Qed.

(** What an iteration's second half reports and records. *)
Lemma outcome_records env it loc w out loc' :
  outcome env it loc w out → res out = inr loc' →
  (reported_val_losses (log out) = [] ∧ val_losses loc' = val_losses loc ∧
   best_val_loss loc' = best_val_loss loc ∧
   (eval_interval (config env) ≠ 0 ∧
    it `mod` eval_interval (config env) ≠ 0)) ∨
  (reported_val_losses (log out) = [tmean (eval_losses env Val w)] ∧
   val_losses loc' = val_losses loc ++ [tmean (eval_losses env Val w)] ∧
   best_val_loss loc' =
     (if improves env (tmean (eval_losses env Val w)) loc
      then tmean (eval_losses env Val w) else best_val_loss loc) ∧
   (eval_interval (config env) ≠ 0 ∧
    it `mod` eval_interval (config env) = 0)).
Proof.
  destruct 1 as [| | mid1 mid2 tl w' ? ? ? Hm1 Hm2 | | | | |];
    cbn [log res]; intros Hres; try done; injection Hres as <-.
  - right. cbn [reported_val_losses].
    rewrite !reported_val_losses_app, !estimate_log_reports_nothing by done.
    cbn [reported_val_losses app]. unfold evaluated.
    split_and!; [|by destruct (improves _ _ _)|by destruct (improves _ _ _)|done|done].
    destruct (improves _ _ _); [|done].
    by destruct (decide (it > 0)).
  - left. by split_and!.
  - left. by split_and!.
Qed.


(** Lines 134 to 151 when [eval_iters] is not negative: the evaluation on the
    validation loader comes first, on the next [eval_iters] batches of that
    loader, and its mean is what the print of line 146 reports. *)
Lemma evaluation_run env it loc w :
  0 ≤ eval_iters (config env) →
  ∃ mid rest train_loss w',
    evaluate_and_checkpoint env it loc w =
      MkOut (EvEstimateLoss Val false :: EvModelEval :: mid ++
             EvModelTrain :: rest)
            w'
            (inr (evaluated env train_loss (tmean (eval_losses env Val w))
                            loc)) ∧
    Forall (is_batch_event false false) mid ∧
    forwarded mid =
      batches Val (val_pos w) (Z.to_nat (eval_iters (config env))) ∧
    EvPrint (MsgEval it train_loss (tmean (eval_losses env Val w))) ∈ rest.
Proof.
  intros Hn. unfold evaluate_and_checkpoint.
  pose proof (estimate_loss_forwarded env Val false w) as Hfw.
  destruct (estimate_loss_returns env Val false w Hn)
    as (mid1 & w1 & rg1 & Hout1 & Hall1 & Hs1 & Ht1 & Hg1 & Hrg1).
  rewrite Hout1 in Hfw. cbn [log forwarded] in Hfw.
  rewrite forwarded_app, app_nil_r in Hfw.
  destruct (estimate_loss_returns env Train false w1 Hn)
    as (mid2 & w2 & rg2 & Hout2 & Hall2 & Hs2 & Ht2 & Hg2 & Hrg2).
  exists mid1,
    (estimate_log Train false mid2 ++
     EvPrint (MsgEval it (tmean (eval_losses env Train w1))
                      (tmean (eval_losses env Val w))) ::
     (if improves env (tmean (eval_losses env Val w)) loc
      then if decide (it > 0)
           then save_log env it (tmean (eval_losses env Val w)) w2 else []
      else [])),
    (tmean (eval_losses env Train w1)), w2.
  split_and!; [|done|done|].
  - unfold evaluated, improves, save_log, estimate_log, save_checkpoint.
    unfold bind, emit, get, ret. rewrite Hout1. cbn [log world res].
    rewrite Hout2. cbn [log world res]. simpl.
    destruct (tlt _ _ || _); simpl.
    + destruct (decide (it > 0)); simpl.
      * f_equal. f_equal. f_equal. rewrite <- !app_assoc. simpl.
        rewrite <- !app_assoc. simpl. done.
      * f_equal. f_equal. f_equal. rewrite <- !app_assoc. simpl.
        rewrite <- !app_assoc. simpl. by rewrite ?app_nil_r.
    + f_equal. f_equal. f_equal. rewrite <- !app_assoc. simpl.
      rewrite <- !app_assoc. simpl. by rewrite ?app_nil_r.
  - rewrite elem_of_app. right. apply list_elem_of_here.
Qed.

(** What a completed iteration reports and records. *)
Lemma loop_body_records env it loc w loc' :
  res (loop_body env it loc w) = inr loc' →
  (reported_val_losses (log (loop_body env it loc w)) = [] ∧
   val_losses loc' = val_losses loc ∧
   best_val_loss loc' = best_val_loss loc ∧
   (eval_interval (config env) ≠ 0 ∧
    it `mod` eval_interval (config env) ≠ 0)) ∨
  (∃ w1,
     reported_val_losses (log (loop_body env it loc w)) =
       [tmean (eval_losses env Val w1)] ∧
     val_losses loc' = val_losses loc ++ [tmean (eval_losses env Val w1)] ∧
     best_val_loss loc' =
       (if improves env (tmean (eval_losses env Val w1)) loc
        then tmean (eval_losses env Val w1) else best_val_loss loc) ∧
     (eval_interval (config env) ≠ 0 ∧
      it `mod` eval_interval (config env) = 0)).
Proof.
  destruct (loop_body_run env it loc w)
    as (loc1 & passes & o & g & w1 & out & Hts & Hout & ->).
  destruct (train_step_run env it loc w)
    as (loc1' & passes' & o' & g' & w1' & Hts' & _ & Hp & _ & _ & Hrec & _).
  rewrite Hts' in Hts. injection Hts as Hlog _ <-.
  fold (train_log env passes' o' g') in Hlog. rewrite <- Hlog.
  destruct Hrec as (Hb & _ & Hv).
  cbn [log res]. intros Hres.
  rewrite reported_val_losses_app,
    (train_events_report_nothing _ (train_log_events env _ _ _ _ Hp)).
  cbn [app].
  destruct (outcome_records _ _ _ _ _ _ Hout Hres)
    as [(Hr & Hv' & Hb' & Hc)|(Hr & Hv' & Hb' & Hc)].
  - left. destruct Hc. split_and!; try done; congruence.
  - right. exists w1. unfold improves in *. rewrite <- Hb, <- Hv.
    destruct Hc. by split_and!.
Qed.

End Runs.

(** [H] puts an event into an explicit list that does not hold it. *)
Ltac not_member H :=
  exfalso;
  repeat (apply elem_of_cons in H as [H|H]; [discriminate H|]);
  by apply elem_of_nil in H.

(** * The claims *)

Section Claims.
Context `{L : Library}.
Local Open Scope M_scope.

Lemma outcome_evaluates env it loc w out :
  outcome env it loc w out →
  EvEstimateLoss Val false ∈ log out ↔
  eval_interval (config env) ≠ 0 ∧ it `mod` eval_interval (config env) = 0.
Proof.
  destruct 1; cbn [log]; unfold estimate_log; split;
    try (intros [? ?]; done);
    try (intros _; set_solver);
    try (intros Hin; exfalso; set_solver).
Qed.

(** C4.  An iteration calls [estimate_loss] on the validation loader exactly
    when [it % eval_interval == 0] evaluates to true.  Such an iteration,
    with [eval_iters] not negative, goes on from its optimizer step with
    [estimate_loss(val_loader)]: forward calls in eval mode with gradients
    disabled on the next [eval_iters] validation batches; the validation
    loss it prints and appends to [val_losses] is the mean of the losses of
    those calls.  An iteration that does not evaluate leaves [val_losses]
    alone.  A call of [estimate_loss] raises when [eval_iters] is negative
    and otherwise returns the mean of [eval_iters] per-batch losses, each
    from a forward call made in eval mode with gradients disabled. *)
Theorem evaluation_at_interval_returns_mean env :
  (∀ it loc w,
     EvEstimateLoss Val false ∈ log (loop_body env it loc w) ↔
     eval_interval (config env) ≠ 0 ∧
     it `mod` eval_interval (config env) = 0) ∧
  (∀ it loc w,
     eval_interval (config env) ≠ 0 →
     it `mod` eval_interval (config env) = 0 →
     0 ≤ eval_iters (config env) →
     ∃ mid rest train_loss loc',
       log (loop_body env it loc w) =
         log (train_step env it loc w) ++
         EvTime :: EvEstimateLoss Val false :: EvModelEval :: mid ++
         EvModelTrain :: rest ∧
       Forall (is_batch_event false false) mid ∧
       forwarded mid =
         batches Val (val_pos (world (train_step env it loc w)))
                 (Z.to_nat (eval_iters (config env))) ∧
       EvPrint (MsgEval it train_loss
                  (tmean (eval_losses env Val
                            (world (train_step env it loc w))))) ∈ rest ∧
       res (loop_body env it loc w) = inr loc' ∧
       val_losses loc' =
         val_losses loc ++
         [tmean (eval_losses env Val (world (train_step env it loc w)))]) ∧
  (∀ it loc w loc',
     ¬ (eval_interval (config env) ≠ 0 ∧
        it `mod` eval_interval (config env) = 0) →
     res (loop_body env it loc w) = inr loc' →
     val_losses loc' = val_losses loc ∧
     reported_val_losses (log (loop_body env it loc w)) = []) ∧
  (∀ s w,
     res (estimate_loss env s false w) =
       (if decide (eval_iters (config env) < 0) then inl RuntimeError
        else inr (tmean (eval_losses env s w), None)) ∧
     length (eval_losses env s w) = Z.to_nat (eval_iters (config env)) ∧
     forwarded (log (estimate_loss env s false w)) =
       batches s (pos s w) (Z.to_nat (eval_iters (config env))) ∧
     ∀ r tm ge, EvForward r tm ge ∈ log (estimate_loss env s false w) →
                tm = false ∧ ge = false).
Proof.
  split_and!.
  - intros it loc w.
    destruct (loop_body_run env it loc w)
      as (loc1 & passes & o & g & w1 & out & Hts & Hout & ->).
    cbn [log]. rewrite elem_of_app, <- (outcome_evaluates _ _ _ _ _ Hout).
    split; [|tauto]. intros [Hin|Hin]; [|done]. exfalso.
    destruct (train_step_run env it loc w)
      as (loc1' & passes' & o' & g' & w1' & Hts' & _ & Hp & _).
    rewrite Hts' in Hts. injection Hts as Hlog _ _.
    pose proof (train_log_events env _ passes' o' g' Hp) as Hev.
    unfold train_log in Hlog, Hev. rewrite Hlog in Hev.
    rewrite Forall_forall in Hev. by apply Hev in Hin.
  - intros it loc w He Hm Hn.
    destruct (train_step_run env it loc w)
      as (loc1 & passes & o & g & w1 & Hts & _ & _ & _ & _ & Hrec & _).
    destruct Hrec as (_ & _ & Hv).
    unfold loop_body. rewrite (bind_out _ _ _ _ _ _ Hts), Hts.
    cbn [log world res].
    unfold evaluate_or_log, py_mod.
    destruct (decide (eval_interval (config env) = 0)); [done|]. run.
    destruct (decide (it `mod` eval_interval (config env) = 0)); [|done].
    destruct (evaluation_run env it loc1 w1 Hn)
      as (mid & rest & tl & w' & -> & Hall & Hfw & Hin).
    cbn [log world res].
    exists mid, rest, tl, (evaluated env tl (tmean (eval_losses env Val w1)) loc1).
    split_and!; try done.
    unfold evaluated. by destruct (improves _ _ _); simpl; rewrite Hv.
  - intros it loc w loc' Hno Hres.
    destruct (loop_body_records env it loc w loc' Hres)
      as [(Hr & Hv & _)|(w1 & _ & _ & _ & Hc)]; [done|].
    by destruct Hno.
  - intros s w. split_and!.
    + destruct (decide (eval_iters (config env) < 0)) as [Hn|Hn].
      * destruct (estimate_loss_raises env s false w Hn) as (w' & ->). done.
      * destruct (estimate_loss_returns env s false w)
          as (mid & w' & rg & -> & _ & _ & _ & _ & Hrg); [lia|].
        cbn [res]. by rewrite Hrg.
    + unfold eval_losses. by rewrite length_fmap, length_seq.
    + apply estimate_loss_forwarded.
    + intros r tm ge.
      destruct (decide (eval_iters (config env) < 0)) as [Hn|Hn].
      * destruct (estimate_loss_raises env s false w Hn) as (w' & ->).
        cbn [log]. set_solver.
      * destruct (estimate_loss_returns env s false w)
          as (mid & w' & rg & -> & Hall & _); [lia|].
        cbn [log]. rewrite !elem_of_cons, elem_of_app, list_elem_of_singleton.
        intros [?|[?|[Hin|?]]]; try done.
        rewrite Forall_forall in Hall. by apply Hall in Hin.
Qed.

(** C10.  [estimate_loss] either raises (a negative [eval_iters]) or
    returns, and whenever it returns, with or without ROUGE, the model is in
    training mode: [model.eval()] comes before the first batch is drawn,
    every forward call in between runs in eval mode, and [model.train()] is
    the last call. *)
Theorem estimate_loss_leaves_training_mode env s return_rouge w :
  (eval_iters (config env) < 0 ∧
   res (estimate_loss env s return_rouge w) = inl RuntimeError) ∨
  (0 ≤ eval_iters (config env) ∧
   ∃ v mid,
     res (estimate_loss env s return_rouge w) = inr v ∧
     training (world (estimate_loss env s return_rouge w)) = true ∧
     log (estimate_loss env s return_rouge w) =
       EvEstimateLoss s return_rouge :: EvModelEval :: mid ++ [EvModelTrain] ∧
     Forall (is_batch_event false false) mid).
Proof.
  destruct (Z_lt_le_dec (eval_iters (config env)) 0) as [Hn|Hn].
  - left. destruct (estimate_loss_raises env s return_rouge w Hn) as (w' & ->).
    done.
  - right. split; [done|].
    destruct (estimate_loss_returns env s return_rouge w Hn)
      as (mid & w' & rg & -> & Hall & _ & Ht & _).
    by eexists _, mid.
Qed.

Lemma train_log_one_step env sc passes o g :
  Forall (is_pass sc) passes →
  ∃ pre,
    train_log env passes o g =
      pre ++ [EvScalerStep o g; EvScalerUpdate; EvZeroGrad] ∧
    Forall (λ e, is_scaler_step e = false) pre.
Proof.
  intros Hp. exists (concat passes ++ clip_log env).
  unfold train_log. rewrite <- app_assoc. split; [done|].
  apply Forall_app. split.
  - induction Hp as [|p ps Hp _ IH]; simpl; [constructor|].
    apply Forall_app. split; [|done].
    destruct Hp as (r & tm & ge & nb & l & ->). by repeat constructor.
  - unfold clip_log. destruct (tne0 _); by repeat constructor.
Qed.

(** C6.  Every iteration makes exactly one [scaler.step(optimizer)] call,
    and at that call every parameter group of the optimizer carries the
    learning rate [lr_scheduler(it)]; in [main] the schedule is the one
    [create_lr_scheduler] built from the config. *)
Theorem lr_set_before_optimizer_step env it loc w :
  (∃ pre o g post,
     log (loop_body env it loc w) = pre ++ EvScalerStep o g :: post ∧
     Forall (λ e, is_scaler_step e = false) pre ∧
     Forall (λ e, is_scaler_step e = false) post ∧
     Forall (λ pg, lr pg = lr_scheduler env it) (param_groups o)) ∧
  (∀ cfg, lr_scheduler (make_env cfg) = create_lr_scheduler cfg).
Proof.
  split; [|done].
  destruct (loop_body_run env it loc w)
    as (loc1 & passes & o & g & w1 & out & Hts & Hout & ->).
  destruct (train_step_run env it loc w)
    as (loc1' & passes' & o' & g' & w1' & Hts' & _ & Hp & Hlr & _).
  rewrite Hts' in Hts. injection Hts as Hlog _ _.
  fold (train_log env passes' o' g') in Hlog. rewrite <- Hlog.
  destruct (train_log_one_step env _ passes' o' g' Hp) as (pre & -> & Hpre).
  exists pre, o', g', ([EvScalerUpdate; EvZeroGrad] ++ log out).
  cbn [log]. split_and!; try done.
  - by rewrite <- app_assoc.
  - apply Forall_app. split; [by repeat constructor|].
    eapply Forall_impl; [exact (outcome_tail_events _ _ _ _ _ Hout)|].
    by intros [].
Qed.

(** The events an [estimate_loss] call can log. *)
Definition is_estimate_event (e : Event) : bool :=
  match e with
  | EvEstimateLoss _ _ | EvModelEval | EvModelTrain | EvNext _
  | EvForward _ _ _ | EvGetLoss _ | EvComputeRouge _ => true
  | _ => false
  end.

Lemma estimate_log_events s rr mid :
  Forall (is_batch_event false false) mid →
  Forall (λ e, is_estimate_event e = true) (estimate_log s rr mid).
Proof.
  intros Hall. unfold estimate_log. repeat constructor.
  apply Forall_app. split; [|by repeat constructor].
  eapply Forall_impl; [exact Hall|]. by intros [].
Qed.

Lemma not_in_estimate_log e s rr mid :
  Forall (is_batch_event false false) mid →
  is_estimate_event e = false → e ∉ estimate_log s rr mid.
Proof.
  intros Hall He Hin. apply estimate_log_events with (s := s) (rr := rr) in Hall.
  rewrite Forall_forall in Hall. apply Hall in Hin. congruence.
Qed.

Lemma not_in_train_log e env sc passes o g :
  Forall (is_pass sc) passes →
  is_train_event e = false → e ∉ train_log env passes o g.
Proof.
  intros Hp He Hin. pose proof (train_log_events env sc passes o g Hp) as Hall.
  rewrite Forall_forall in Hall. apply Hall in Hin. congruence.
Qed.

(** Where a [torch.save] in the second half of an iteration comes from. *)
Lemma outcome_torch_save env it loc w out ck path :
  outcome env it loc w out →
  EvTorchSave ck path ∈ log out →
  it > 0 ∧
  ∃ train_loss val_loss,
    improves env val_loss loc = true ∧
    res out = inr (evaluated env train_loss val_loss loc) ∧
    ck = checkpoint_dict env it val_loss (world out) ∧
    path = os_path_join (out_dir (config env)) "ckpt_status.pt".
Proof.
  destruct 1 as [| | mid1 mid2 tl w' ? ? ? Hm1 Hm2 | | | | |];
    cbn [log world res]; intros Hin;
    try (exfalso; set_solver).
  rewrite elem_of_cons, !elem_of_app, elem_of_cons in Hin.
  destruct Hin as [?|[Hin|[Hin|[?|Hin]]]]; try done.
  - by apply not_in_estimate_log in Hin.
  - by apply not_in_estimate_log in Hin.
  - destruct (improves _ _ _) eqn:Himp; [|by apply elem_of_nil in Hin].
    destruct (decide (it > 0)) as [Hit|Hit]; [|by apply elem_of_nil in Hin].
    split; [done|]. exists tl, (tmean (eval_losses env Val w)).
    unfold save_log in Hin. rewrite !elem_of_cons, elem_of_nil in Hin.
    destruct Hin as [?|[?|[Heq|[]]]]; try done.
    injection Heq as -> ->. by split_and!.
Qed.

Lemma checkpoint_dict_entries env it best w :
  dom (checkpoint_dict env it best w) =
    ({["optimizer"; "iter_num"; "best_val_loss"; "config"]} : gset string) ∧
  size (checkpoint_dict env it best w) = 4%nat ∧
  checkpoint_dict env it best w !! "optimizer" =
    Some (VOptimizer (optimizer w)) ∧
  checkpoint_dict env it best w !! "iter_num" = Some (VInt it) ∧
  checkpoint_dict env it best w !! "best_val_loss" = Some (VFloat best) ∧
  checkpoint_dict env it best w !! "config" = Some (VConfig (config env)).
Proof.
  unfold checkpoint_dict. simpl. split_and!.
  - rewrite !dom_insert_L, dom_empty_L. set_solver.
  - rewrite !map_size_insert_None, map_size_empty; [done|..];
      by simplify_map_eq.
  - by simplify_map_eq.
  - by simplify_map_eq.
  - by simplify_map_eq.
  - by simplify_map_eq.
Qed.

(** C3.  A [torch.save] call of an iteration writes, to ckpt_status.pt in
    the output directory, a dict with exactly the four keys "optimizer",
    "iter_num", "best_val_loss" and "config", holding the optimizer's state
    as it is then, the iteration number [it], the tracked best validation
    loss and the config dict. *)
Theorem checkpoint_bundle_has_four_entries env it loc w ck path :
  EvTorchSave ck path ∈ log (loop_body env it loc w) →
  path = os_path_join (out_dir (config env)) "ckpt_status.pt" ∧
  dom ck = ({["optimizer"; "iter_num"; "best_val_loss"; "config"]}
              : gset string) ∧
  size ck = 4%nat ∧
  ∃ loc',
    res (loop_body env it loc w) = inr loc' ∧
    ck !! "optimizer" =
      Some (VOptimizer (optimizer (world (loop_body env it loc w)))) ∧
    ck !! "iter_num" = Some (VInt it) ∧
    ck !! "best_val_loss" = Some (VFloat (best_val_loss loc')) ∧
    ck !! "config" = Some (VConfig (config env)).
Proof.
  destruct (loop_body_run env it loc w)
    as (loc1 & passes & o & g & w1 & out & Hts & Hout & ->).
  destruct (train_step_run env it loc w)
    as (loc1' & passes' & o' & g' & w1' & Hts' & _ & Hp & _).
  rewrite Hts' in Hts. injection Hts as Hlog _ _.
  fold (train_log env passes' o' g') in Hlog. rewrite <- Hlog.
  cbn [log world res]. rewrite elem_of_app. intros [Hin|Hin].
  { by eapply not_in_train_log in Hin. }
  destruct (outcome_torch_save _ _ _ _ _ _ _ Hout Hin)
    as (Hit & tl & vl & Himp & Hres & -> & ->).
  destruct (checkpoint_dict_entries env it vl (world out))
    as (Hdom & Hsize & Ho & Hi & Hb & Hc).
  split; [reflexivity|]. split; [exact Hdom|]. split; [exact Hsize|].
  eexists. split; [exact Hres|].
  split; [exact Ho|]. split; [exact Hi|]. split; [|exact Hc].
  unfold evaluated. rewrite Himp. exact Hb.
Qed.

(** C1, amended.  In an iteration [it > 0], when the evaluation reports a
    validation loss strictly below the best one so far, the iteration goes
    on to save the model's weights and to write the checkpoint dict: the
    three calls of lines 162 to 166 end its log. *)
Theorem improvement_is_checkpointed_after_iteration_zero
    env it loc w train_loss val_loss :
  it > 0 →
  EvPrint (MsgEval it train_loss val_loss) ∈ log (loop_body env it loc w) →
  tlt val_loss (best_val_loss loc) = true →
  ∃ pre,
    log (loop_body env it loc w) =
      pre ++ EvPrint (MsgEval it train_loss val_loss) ::
      save_log env it val_loss (world (loop_body env it loc w)).
Proof.
  intros Hit Hin Hlt.
  destruct (loop_body_run env it loc w)
    as (loc1 & passes & o & g & w1 & out & Hts & Hout & Hrun).
  destruct (train_step_run env it loc w)
    as (loc1' & passes' & o' & g' & w1' & Hts' & _ & Hp & _ & _ & Hrec & _).
  rewrite Hts' in Hts. injection Hts as Hlog Hw Hloc.
  fold (train_log env passes' o' g') in Hlog. subst loc1' w1'.
  rewrite Hrun in Hin |- *. rewrite <- Hlog in Hin |- *. clear Hrun Hlog.
  cbn [log world res] in *. rewrite elem_of_app in Hin.
  destruct Hin as [Hin|Hin]; [by eapply not_in_train_log in Hin|].
  destruct Hrec as (Hbest & _).
  destruct Hout as [| | mid1 mid2 tl w' ? ? ? Hm1 Hm2 | | | | |];
    cbn [log world res] in *; try (by not_member Hin).
  rewrite elem_of_cons, !elem_of_app, elem_of_cons in Hin.
  destruct Hin as [?|[Hin|[Hin|[Heq|Hin]]]]; try done.
  - by apply not_in_estimate_log in Hin.
  - by apply not_in_estimate_log in Hin.
  - injection Heq as -> ->.
    unfold improves. rewrite Hbest, Hlt. simpl.
    destruct (decide (it > 0)); [|done].
    exists (train_log env passes' o' g' ++ EvTime ::
            estimate_log Val false mid1 ++ estimate_log Train false mid2).
    unfold estimate_log.
    repeat (progress (rewrite <- ?app_assoc; cbn [app])). done.
  - exfalso. destruct (improves _ _ _); [|by apply elem_of_nil in Hin].
    destruct (decide (it > 0)); [|by apply elem_of_nil in Hin].
    unfold save_log in Hin. not_member Hin.
Qed.

End Claims.

(** ** The loop over iterations *)

Section Loops.
Context `{L : Library}.
Local Open Scope M_scope.

Lemma passes_per_step_app acc l1 l2 :
  passes_per_step acc (l1 ++ l2) =
  passes_per_step acc l1 ++ passes_per_step (open_passes acc l1) l2.
Proof.
  revert acc. induction l1 as [|e l1 IH]; intros acc; [done|].
  destruct e; simpl; rewrite ?IH; done.
Qed.

Lemma open_passes_app acc l1 l2 :
  open_passes acc (l1 ++ l2) = open_passes (open_passes acc l1) l2.
Proof.
  revert acc. induction l1 as [|e l1 IH]; intros acc; [done|].
  destruct e; simpl; rewrite ?IH; done.
Qed.

Lemma tail_events_quiet acc l :
  Forall (λ e, is_tail_event e = true) l →
  passes_per_step acc l = [] ∧ open_passes acc l = acc.
Proof.
  induction 1 as [|e l He _ IH]; [done|]. by destruct e.
Qed.

Lemma passes_counted sc acc passes :
  Forall (is_pass sc) passes →
  passes_per_step acc (concat passes) = [] ∧
  open_passes acc (concat passes) = (acc + length passes)%nat.
Proof.
  intros Hp. revert acc. induction Hp as [|p ps Hp _ IH]; intros acc; simpl.
  - split; [done|lia].
  - destruct Hp as (r & tm & ge & nb & l & ->). simpl.
    destruct (IH (S acc)) as [-> ->]. split; [done|lia].
Qed.

Lemma train_log_counted env sc acc passes o g :
  Forall (is_pass sc) passes →
  passes_per_step acc (train_log env passes o g) = [(acc + length passes)%nat] ∧
  open_passes acc (train_log env passes o g) = 0%nat.
Proof.
  intros Hp. unfold train_log.
  destruct (passes_counted sc acc passes Hp) as [H1 H2].
  rewrite passes_per_step_app, open_passes_app, H1, H2.
  unfold clip_log. by destruct (tne0 _).
Qed.

Lemma loop_body_counted env it loc w :
  passes_per_step 0 (log (loop_body env it loc w)) =
    [Z.to_nat (gradient_accumulation_steps (config env))] ∧
  open_passes 0 (log (loop_body env it loc w)) = 0%nat.
Proof.
  destruct (loop_body_run env it loc w)
    as (loc1 & passes & o & g & w1 & out & Hts & Hout & ->).
  destruct (train_step_run env it loc w)
    as (loc1' & passes' & o' & g' & w1' & Hts' & Hlen & Hp & _).
  rewrite Hts' in Hts. injection Hts as Hlog _ _.
  fold (train_log env passes' o' g') in Hlog. rewrite <- Hlog.
  cbn [log]. rewrite passes_per_step_app, open_passes_app.
  destruct (train_log_counted env _ 0 passes' o' g' Hp) as [-> ->].
  destruct (tail_events_quiet 0 _ (outcome_tail_events _ _ _ _ _ Hout))
    as [-> ->].
  by rewrite Hlen.
Qed.

(** The iterations of a loop that were started. *)
Lemma for_loop_counted env (its : list Z) : ∀ loc w,
  ∃ k, (k ≤ length its)%nat ∧
    passes_per_step 0 (log (for_loop its (loop_body env) loc w)) =
      replicate k (Z.to_nat (gradient_accumulation_steps (config env))) ∧
    open_passes 0 (log (for_loop its (loop_body env) loc w)) = 0%nat ∧
    (∀ loc', res (for_loop its (loop_body env) loc w) = inr loc' →
             k = length its).
Proof.
  induction its as [|it its IH]; intros loc w.
  - exists 0%nat. by split_and!.
  - simpl for_loop. destruct (loop_body_counted env it loc w) as [Hp Ho].
    unfold bind. destruct (res (loop_body env it loc w)) as [e|loc1] eqn:Hres.
    + exists 1%nat. cbn [log res]. split_and!; [simpl; lia|done|done|done].
    + destruct (IH loc1 (world (loop_body env it loc w)))
        as (k & Hk & Hp' & Ho' & Hres').
      exists (S k). cbn [log res].
      rewrite passes_per_step_app, open_passes_app, Hp, Ho, Hp', Ho'.
      split_and!; [simpl; lia|done|done|].
      intros loc' H. by rewrite (Hres' loc' H).
Qed.

Lemma outcome_keeps_grads env it loc w out loc' :
  outcome env it loc w out → res out = inr loc' → grads (world out) = grads w.
Proof.
  destruct 1 as [| | ? ? ? ? ? ? ? ? ? Hs | | | | |]; cbn [res world];
    try done.
  by destruct Hs as (_ & -> & _).
Qed.

(** C2, amended.  When the loop runs to its end without raising, its log
    holds exactly [max_iters - iter_num] calls of [scaler.step], each with
    exactly [range(gradient_accumulation_steps)] backward passes since the
    call before it.  In every iteration the training half consists of that
    many passes (forward on the batch, prefetch, loss read from the batch,
    scale, backward of the scaled loss), the optional unscale and clip, and
    one [scaler.step] that finds the gradients accumulated from these
    passes; the iteration ends with the gradients reset, as they are when
    [main] starts. *)
Theorem training_loop_steps_and_passes env :
  (∀ loc w loc',
     0 ≤ default 0 (cfg_iter_num (config env)) ≤ max_iters (config env) →
     res (training_loop env loc w) = inr loc' →
     passes_per_step 0 (log (training_loop env loc w)) =
       replicate
         (Z.to_nat (max_iters (config env) -
                    default 0 (cfg_iter_num (config env))))
         (Z.to_nat (gradient_accumulation_steps (config env))) ∧
     Z.of_nat (length (passes_per_step 0 (log (training_loop env loc w)))) =
       max_iters (config env) - default 0 (cfg_iter_num (config env))) ∧
  (∀ it loc w, ∃ passes o g,
     log (train_step env it loc w) = train_log env passes o g ∧
     length passes = Z.to_nat (gradient_accumulation_steps (config env)) ∧
     Forall (is_pass (scaler w)) passes ∧
     g = clipped env w
           (accumulated env (weights w) (backward_args (concat passes))
                        (grads w)) ∧
     grads (world (train_step env it loc w)) = grad_none) ∧
  (∀ it loc w loc',
     res (loop_body env it loc w) = inr loc' →
     grads (world (loop_body env it loc w)) = grad_none) ∧
  (∀ cfg, grads (init_world cfg) = grad_none).
Proof.
  split_and!.
  - intros loc w loc' Hrange Hres. unfold training_loop in *.
    destruct (for_loop_counted env
                (range (default 0 (cfg_iter_num (config env)))
                       (max_iters (config env))) loc w)
      as (k & _ & Hp & _ & Hk).
    rewrite Hp, (Hk loc' Hres), range_length, length_replicate.
    split; [done|lia].
  - intros it loc w.
    destruct (train_step_run env it loc w)
      as (loc1 & passes & o & g & w1 & -> & Hlen & Hp & _ & Hg & _ & Hn & _).
    by exists passes, o, g.
  - intros it loc w loc'.
    destruct (loop_body_run env it loc w)
      as (loc1 & passes & o & g & w1 & out & Hts & Hout & ->).
    destruct (train_step_run env it loc w)
      as (? & ? & ? & ? & w1' & Hts' & _ & _ & _ & _ & _ & Hn & _).
    rewrite Hts' in Hts. injection Hts as _ <- _.
    cbn [res world]. intros Hres.
    by rewrite (outcome_keeps_grads _ _ _ _ _ _ Hout Hres).
  - done.
Qed.

(** ** The tracked best validation loss *)

Lemma is_min_step (b0 b v : tval) vs :
  (∀ a, tlt a a = false) →
  (∀ a b c, tlt a b = true → tlt b c = true → tlt a c = true) →
  is_min b (b0 :: vs) → is_min (py_min b v) (b0 :: vs ++ [v]).
Proof.
  intros Hirr Htr [Hin Hle]. unfold py_min.
  destruct (tlt v b) eqn:Hvb.
  - split.
    + rewrite app_comm_cons, elem_of_app, list_elem_of_singleton. by right.
    + intros x. rewrite app_comm_cons, elem_of_app, list_elem_of_singleton.
      intros [Hx| ->]; [|apply Hirr].
      destruct (tlt x v) eqn:Hxv; [|done].
      rewrite <- (Hle x Hx). symmetry. by apply (Htr x v b).
  - split.
    + rewrite app_comm_cons, elem_of_app. by left.
    + intros x. rewrite app_comm_cons, elem_of_app, list_elem_of_singleton.
      intros [Hx| ->]; [by apply Hle|done].
Qed.

(** C9.  With [always_save_checkpoint] false, after any number of completed
    iterations the validation losses the run has reported, one per
    evaluation and each the mean [estimate_loss] computed on the validation
    loader, are what [val_losses] has gained, and the tracked
    [best_val_loss] is the running minimum, as Python's [min] folds it, of
    its initial value and those losses; for a [<] that is irreflexive and
    transitive it is a least element of them, so it never lies above its
    initial value. *)
Theorem best_val_loss_is_running_minimum env its loc w loc' :
  (∀ a, tlt a a = false) →
  (∀ a b c, tlt a b = true → tlt b c = true → tlt a c = true) →
  always_save_checkpoint (config env) = false →
  res (for_loop its (loop_body env) loc w) = inr loc' →
  val_losses loc' =
    val_losses loc ++
    reported_val_losses (log (for_loop its (loop_body env) loc w)) ∧
  best_val_loss loc' =
    foldl py_min (best_val_loss loc)
          (reported_val_losses (log (for_loop its (loop_body env) loc w))) ∧
  is_min (best_val_loss loc')
         (best_val_loss loc ::
          reported_val_losses (log (for_loop its (loop_body env) loc w))) ∧
  tlt (best_val_loss loc) (best_val_loss loc') = false ∧
  Forall (λ v, ∃ w1, v = tmean (eval_losses env Val w1))
         (reported_val_losses (log (for_loop its (loop_body env) loc w))) ∧
  length (reported_val_losses (log (for_loop its (loop_body env) loc w))) =
    length (filter (λ it, it `mod` eval_interval (config env) = 0) its).
Proof.
  intros Hirr Htr Hal.
  assert (Hmain : ∀ its loc w loc',
            res (for_loop its (loop_body env) loc w) = inr loc' →
            val_losses loc' =
              val_losses loc ++
              reported_val_losses (log (for_loop its (loop_body env) loc w)) ∧
            best_val_loss loc' =
              foldl py_min (best_val_loss loc)
                (reported_val_losses
                   (log (for_loop its (loop_body env) loc w))) ∧
            Forall (λ v, ∃ w1, v = tmean (eval_losses env Val w1))
              (reported_val_losses
                 (log (for_loop its (loop_body env) loc w))) ∧
            length (reported_val_losses
                      (log (for_loop its (loop_body env) loc w))) =
              length (filter (λ it, it `mod` eval_interval (config env) = 0)
                             its)).
  { clear its loc w loc'. induction its as [|it its IH]; intros loc w loc'.
    - simpl. intros [= <-]. by rewrite app_nil_r.
    - simpl for_loop. unfold bind.
      destruct (res (loop_body env it loc w)) as [e|loc1] eqn:Hres; [done|].
      cbn [res log]. intros Hrest.
      destruct (IH _ _ _ Hrest) as (Hvs & Hbest & Hall & Hlen).
      rewrite reported_val_losses_app, Hvs, Hbest.
      destruct (loop_body_records env it loc w loc1 Hres)
        as [(Hr & Hv & Hb & _ & Hc)|(w1 & Hr & Hv & Hb & _ & Hc)];
        rewrite Hr, Hv, Hb.
      + rewrite filter_cons_False by done. by split_and!.
      + rewrite filter_cons_True by done.
        unfold improves. rewrite Hal, orb_false_r.
        fold (py_min (best_val_loss loc) (tmean (eval_losses env Val w1))).
        rewrite <- app_assoc. cbn [app foldl length].
        split_and!; [done|done| |by rewrite Hlen].
        constructor; [by exists w1|done]. }
  intros Hres.
  destruct (Hmain its loc w loc' Hres) as (Hvs & Hbest & Hall & Hlen).
  assert (Hmin : is_min (best_val_loss loc')
            (best_val_loss loc ::
             reported_val_losses (log (for_loop its (loop_body env) loc w)))).
  { rewrite Hbest. clear Hvs Hbest Hres Hall Hlen Hmain.
    generalize (reported_val_losses (log (for_loop its (loop_body env) loc w))).
    intros vs.
    induction vs as [|v vs IH] using rev_ind.
    - simpl. split; [by left|]. intros x Hx.
      apply list_elem_of_singleton in Hx as ->. apply Hirr.
    - rewrite foldl_app. simpl. by apply is_min_step. }
  split_and!; try done.
  destruct Hmin as [_ Hle]. apply Hle. by left.
Qed.

End Loops.

(** ** The phases of main *)

Section Phases.
Context `{L : Library}.
Local Open Scope M_scope.

Lemma loop_body_events env it loc w :
  Forall (λ e, is_train_event e = true ∨ is_tail_event e = true)
         (log (loop_body env it loc w)).
Proof.
  destruct (loop_body_run env it loc w)
    as (loc1 & passes & o & g & w1 & out & Hts & Hout & ->).
  destruct (train_step_run env it loc w)
    as (loc1' & passes' & o' & g' & w1' & Hts' & _ & Hp & _).
  rewrite Hts' in Hts. injection Hts as Hlog _ _.
  fold (train_log env passes' o' g') in Hlog. rewrite <- Hlog.
  cbn [log]. apply Forall_app. split.
  - eapply Forall_impl; [exact (train_log_events env _ passes' o' g' Hp)|].
    intros e He. by left.
  - eapply Forall_impl; [exact (outcome_tail_events _ _ _ _ _ Hout)|].
    intros e He. by right.
Qed.

Lemma for_loop_events env (its : list Z) : ∀ loc w,
  Forall (λ e, is_train_event e = true ∨ is_tail_event e = true)
         (log (for_loop its (loop_body env) loc w)).
Proof.
  induction its as [|it its IH]; intros loc w; [constructor|].
  simpl for_loop. unfold bind.
  destruct (res (loop_body env it loc w)) as [e|loc1]; cbn [log].
  - apply loop_body_events.
  - apply Forall_app. split; [apply loop_body_events|apply IH].
Qed.

Lemma plot_phase_events env loc w :
  Forall (λ e, is_plot_event e = true) (log (plot_phase env loc w)) ∧
  ∃ rest, log (plot_phase env loc w) = EvSubplots :: rest.
Proof.
  unfold plot_phase, np_arange, ax_plot. run.
  destruct (decide (log_interval (config env) = 0)).
  { run. split; [by repeat constructor|by eexists]. }
  run.
  destruct (decide (length _ = length (train_losses loc))).
  2:{ run. split; [by repeat constructor|by eexists]. }
  run.
  destruct (decide (eval_interval (config env) = 0)).
  { run. split; [by repeat constructor|by eexists]. }
  run.
  destruct (decide (length _ = length (val_losses loc))).
  2:{ run. split; [by repeat constructor|by eexists]. }
  run. unfold ret. cbn [log].
  split; [by repeat constructor|by eexists].
Qed.

Lemma init_phase_run cfg w :
  init_phase cfg w =
  MkOut [EvLoadConfig "config/train.yaml"; EvSetup; EvInitTransformer;
         EvGradScaler (enabled (init_scaler cfg)); EvAdamW;
         EvCreateLrScheduler; EvRougeLoad; EvTokenizer;
         EvGetPromptDataloaders] w (inr tt).
Proof. reflexivity. Qed.

(** C7.  The log of [main] is, in this order: the calls that load the
    config and then build the context, the model, the scaler, the optimizer,
    the schedule, the loss estimator and the loaders; the first batch; the
    log of the loop over iterations; and the plotting calls.  No call of the
    loop is an initialisation or plotting call, every evaluation and
    checkpointing call of the run belongs to the loop, and the plotting calls
    are made only when the loop has returned. *)
Theorem main_phases_in_order cfg :
  ∃ plot_log,
    log (main cfg) =
      [EvLoadConfig "config/train.yaml"; EvSetup; EvInitTransformer;
       EvGradScaler (enabled (init_scaler cfg)); EvAdamW;
       EvCreateLrScheduler; EvRougeLoad; EvTokenizer;
       EvGetPromptDataloaders; EvTime; EvNext (Train, 0%nat)] ++
      log (main_loop cfg) ++ plot_log ∧
    Forall (λ e, is_init_event e = false ∧ is_plot_event e = false)
           (log (main_loop cfg)) ∧
    Forall (λ e, is_plot_event e = true) plot_log ∧
    (∀ e, is_eval_event e || is_checkpoint_event e = true →
          e ∈ log (main cfg) → e ∈ log (main_loop cfg)) ∧
    match res (main_loop cfg) with
    | inl e => plot_log = [] ∧ res (main cfg) = inl e
    | inr loc =>
        plot_log = log (plot_phase (make_env cfg) loc (world (main_loop cfg))) ∧
        ∃ rest, plot_log = EvSubplots :: rest
    end.
Proof.
  assert (Hloop : Forall (λ e, is_init_event e = false ∧ is_plot_event e = false)
                         (log (main_loop cfg))).
  { eapply Forall_impl; [apply for_loop_events|].
    intros e [He|He]; by destruct e as [| | | | | | | | | |? [] []| | | | | | | | | | | | | | | | | | | | | |]. }
  assert (Hmain : main cfg =
    MkOut ([EvLoadConfig "config/train.yaml"; EvSetup; EvInitTransformer;
            EvGradScaler (enabled (init_scaler cfg)); EvAdamW;
            EvCreateLrScheduler; EvRougeLoad; EvTokenizer;
            EvGetPromptDataloaders; EvTime; EvNext (Train, 0%nat)] ++
           log (bind (λ w, main_loop cfg)
                     (plot_phase (make_env cfg)) (init_world cfg)))
          (world (bind (λ w, main_loop cfg)
                       (plot_phase (make_env cfg)) (init_world cfg)))
          (res (bind (λ w, main_loop cfg)
                     (plot_phase (make_env cfg)) (init_world cfg)))).
  { unfold main, main_body.
    rewrite (bind_out _ _ _ _ _ _ (init_phase_run cfg (init_world cfg))).
    cbv beta. rewrite bind_emit.
    rewrite (bind_out _ _ _ _ _ _
               (eq_refl : next Train (init_world cfg) =
                          MkOut [EvNext (Train, 0%nat)]
                                (set_pos Train 1 (init_world cfg))
                                (inr (Train, 0%nat)))).
    cbv beta. cbn [log world res app].
    unfold main_loop. unfold bind. by destruct (res _). }
  rewrite Hmain. cbn [log res]. unfold bind. cbn [log world res].
  destruct (res (main_loop cfg)) as [e|loc] eqn:Hres; cbn [log res].
  - exists []. rewrite app_nil_r. split_and!; try done.
    intros e' He'. rewrite elem_of_app. intros [Hin|Hin]; [|done].
    exfalso. revert He'. clear -Hin.
    repeat (apply elem_of_cons in Hin as [->|Hin]; [done|]).
    by apply elem_of_nil in Hin.
  - destruct (plot_phase_events (make_env cfg) loc (world (main_loop cfg)))
      as (Hplot & rest & Hrest).
    exists (log (plot_phase (make_env cfg) loc (world (main_loop cfg)))).
    split_and!; try done; [|by exists rest].
    intros e' He'. rewrite !elem_of_app. intros [Hin|[Hin|Hin]]; [|done|].
    + exfalso. revert He'. clear -Hin.
      repeat (apply elem_of_cons in Hin as [->|Hin]; [done|]).
      by apply elem_of_nil in Hin.
    + exfalso. rewrite Forall_forall in Hplot. apply Hplot in Hin.
      by destruct e'.
Qed.

End Phases.

(** ** A disabled scaler *)

Section Scaler.
Context `{L : Library}.
Local Open Scope M_scope.

Lemma erase_log_app l1 l2 :
  erase_log (l1 ++ l2) = erase_log l1 ++ erase_log l2.
Proof. apply bind_app. Qed.

Lemma sim_bind {A B} (m m' : M A) (f f' : A → M B) w :
  sim (m w) (m' w) →
  (∀ a, res (m w) = inr a →
        sim (f a (world (m w))) (f' a (world (m w)))) →
  sim (bind m f w) (bind m' f' w).
Proof.
  intros (Hr & Hw & Hl) Hf. unfold bind. rewrite <- Hr, <- Hw, <- Hl.
  destruct (res (m w)) as [e|a] eqn:Hres.
  - by split_and!.
  - destruct (Hf a eq_refl) as (Hr' & Hw' & Hl'). split_and!; cbn [log world res].
    + done.
    + done.
    + by rewrite erase_log_app, Hl'.
Qed.

Lemma sim_for_loop {A B} (body body' : A → B → M B) (l : list A) :
  (∀ a b w, enabled (scaler w) = false →
     sim (body a b w) (body' a b w) ∧
     (∀ b', res (body a b w) = inr b' →
            enabled (scaler (world (body a b w))) = false)) →
  ∀ b w, enabled (scaler w) = false →
    sim (for_loop l body b w) (for_loop l body' b w).
Proof.
  intros Hbody. induction l as [|a l IH]; intros b w Hw.
  - by split_and!.
  - simpl for_loop. destruct (Hbody a b w Hw) as [Hsim Hen].
    apply sim_bind; [done|]. intros b' Hres. apply IH. by apply (Hen b').
Qed.

Lemma tail_events_erased lg :
  Forall (λ e, is_tail_event e = true) lg → erase_log lg = lg.
Proof.
  induction 1 as [|e lg He _ IH]; [done|].
  unfold erase_log in *. rewrite bind_cons, IH. by destruct e.
Qed.

Lemma disabled_scaler_no_op w v :
  enabled (scaler w) = false →
  scaled (scaler w) v = v ∧ apply_unscale w = w ∧
  apply_scaler_step w = apply_optimizer_step w ∧ apply_scaler_update w = w.
Proof.
  intros He. unfold scaled, apply_unscale, apply_scaler_step,
    apply_scaler_update. by rewrite He.
Qed.

Lemma unscaled_accumulate_run env k loc w :
  unscaled_accumulate env k loc w =
  MkOut [EvForward (next_batch loc) (training w) (grad_enabled w);
         EvNext (Train, train_pos w); EvGetLoss (next_batch loc);
         EvBackward (next_batch loc) (pass_loss env loc w)]
        (set_grads
           (backward (weights w) (batch_data env (next_batch loc))
                     (pass_loss env loc w) (grads w))
           (set_pos Train (S (train_pos w))
              (set_heap
                 (<[next_batch loc :=
                      (forward (ctx env) (training w) (grad_enabled w)
                               (weights w)
                               (batch_data env (next_batch loc))).1]>
                    (heap w)) w)))
        (inr (set_batches (next_batch loc) (Train, train_pos w) loc)).
Proof.
  unfold unscaled_accumulate, pass_loss.
  unfold bind, model_call, next, get_loss, backward_call.
  destruct (forward _ _ _ _ _) as [out rv]. simpl.
  rewrite lookup_insert_eq. simpl. reflexivity.
Qed.

Lemma sim_accumulate env k loc w :
  enabled (scaler w) = false →
  sim (accumulate env k loc w) (unscaled_accumulate env k loc w) ∧
  (∀ loc', res (accumulate env k loc w) = inr loc' →
           enabled (scaler (world (accumulate env k loc w))) = false).
Proof.
  intros He. rewrite accumulate_run, unscaled_accumulate_run.
  unfold sim, pass_world, pass_log, pass_scaled, scaled. rewrite He.
  cbn [log world res]. by split_and!.
Qed.

Lemma apply_optimizer_step_scaler w :
  scaler (apply_optimizer_step w) = scaler w.
Proof. unfold apply_optimizer_step. by destruct (optimizer_step _ _ _). Qed.

Lemma sim_train_step env it loc w :
  enabled (scaler w) = false →
  sim (train_step env it loc w) (unscaled_train_step env it loc w).
Proof.
  intros He. unfold train_step, unscaled_train_step, set_lr.
  rewrite !bind_modify.
  apply sim_bind.
  { apply sim_for_loop; [|done]. intros. by apply sim_accumulate. }
  intros loc1 Hres.
  destruct (accumulate_loop_run env
              (range 0 (gradient_accumulation_steps (config env))) loc
              (set_optimizer (with_lr (lr_scheduler env it) (optimizer w)) w))
    as (loc1' & passes & w1 & Hout & _ & _ & _ & Hmod & _).
  rewrite Hout in *. cbn [world res] in *.
  destruct Hmod as (_ & Hsc & _). simpl in Hsc.
  assert (He1 : enabled (scaler w1) = false) by by rewrite Hsc.
  unfold bind, scaler_unscale_, clip_call, scaler_step, scaler_update,
    optimizer_step_call, zero_grad, emit, modify, get, ret.
  unfold apply_unscale, apply_scaler_step, apply_scaler_update.
  unfold sim. destruct (tne0 (grad_clip (config env))); simpl;
    rewrite ?He1; simpl; rewrite ?apply_optimizer_step_scaler; simpl;
    rewrite ?He1; by split_and!.
Qed.

Lemma outcome_sim env it loc w out :
  outcome env it loc w out →
  erase_log (log out) = log out ∧
  (∀ loc', res out = inr loc' → scaler (world out) = scaler w).
Proof.
  intros Hout. split.
  - apply tail_events_erased. by eapply outcome_tail_events.
  - destruct Hout as [| | ? ? ? ? ? ? ? ? ? Hs | | | | |]; cbn [res world];
      try done.
    by destruct Hs as (_ & _ & _ & ->).
Qed.

Lemma sim_loop_body env it loc w :
  enabled (scaler w) = false →
  sim (loop_body env it loc w) (unscaled_loop_body env it loc w) ∧
  (∀ loc', res (loop_body env it loc w) = inr loc' →
           enabled (scaler (world (loop_body env it loc w))) = false).
Proof.
  intros He. split.
  - unfold loop_body, unscaled_loop_body. apply sim_bind.
    + by apply sim_train_step.
    + intros loc1 _.
      destruct (outcome_sim _ _ _ _ _
                  (evaluate_or_log_run env it loc1
                     (world (train_step env it loc w)))) as [Hl _].
      by split_and!.
  - intros loc'.
    destruct (loop_body_run env it loc w)
      as (loc1 & passes & o & g & w1 & out & Hts & Hout & ->).
    destruct (train_step_run env it loc w)
      as (? & ? & ? & ? & w1' & Hts' & _ & _ & _ & _ & _ & _ & _ & _ & Hsc & _).
    rewrite Hts' in Hts. injection Hts as _ <- _.
    cbn [res world]. intros Hres.
    destruct (outcome_sim _ _ _ _ _ Hout) as [_ Hw].
    by rewrite (Hw loc' Hres), Hsc.
Qed.

(** C8.  The scaler that [main] builds is enabled exactly for dtype
    "float16".  A disabled scaler's four calls are no-ops around the plain
    operations, and the training loop run with a disabled scaler ends with
    the same result in the same world as the loop written without a scaler,
    having made the same calls once the scaler's own are erased. *)
Theorem disabled_scaler_is_unscaled_training env :
  (∀ cfg, enabled (init_scaler cfg) = true ↔ dtype cfg = "float16") ∧
  (∀ cfg, scaler (init_world cfg) = init_scaler cfg) ∧
  (∀ w v, enabled (scaler w) = false →
     scaled (scaler w) v = v ∧ apply_unscale w = w ∧
     apply_scaler_step w = apply_optimizer_step w ∧
     apply_scaler_update w = w) ∧
  (∀ loc w, enabled (scaler w) = false →
     res (training_loop env loc w) = res (unscaled_training_loop env loc w) ∧
     world (training_loop env loc w) =
       world (unscaled_training_loop env loc w) ∧
     erase_log (log (training_loop env loc w)) =
       log (unscaled_training_loop env loc w)).
Proof.
  split_and!.
  - intros cfg. unfold init_scaler. cbn [enabled]. apply String.eqb_eq.
  - done.
  - intros w v. apply disabled_scaler_no_op.
  - intros loc w He. unfold training_loop, unscaled_training_loop.
    apply sim_for_loop; [|done]. intros. by apply sim_loop_body.
Qed.

End Scaler.

(** ** The batch and the forward call *)

Section Ret.
Context `{L : Library}.
Local Open Scope M_scope.

Lemma bind_ext {A B} (m m' : M A) (k k' : A → M B) w :
  m w = m' w → (∀ a w', k a w' = k' a w') → bind m k w = bind m' k' w.
Proof.
  intros Hm Hk. unfold bind. rewrite Hm.
  destruct (res (m' w)); [done|]. by rewrite Hk.
Qed.

Lemma for_loop_ext {A B} (body body' : A → B → M B) (l : list A) :
  (∀ a b w, body a b w = body' a b w) →
  ∀ b w, for_loop l body b w = for_loop l body' b w.
Proof.
  intros Hb. induction l as [|a l IH]; intros b w; [done|].
  simpl. apply bind_ext; [apply Hb|apply IH].
Qed.

(** A caller that drops what the forward call returns cannot tell the two
    libraries apart. *)
Lemma model_call_discarded {B} f env r (k k' : M B) w :
  (∀ w', k w' = k' w') →
  bind (@model_call _ (with_ret f) env r) (λ _, k) w =
  bind (model_call env r) (λ _, k') w.
Proof.
  intros Hk. unfold bind, model_call. cbn [forward with_ret].
  destruct (forward _ _ _ _ _) as [out rv]. cbn. by rewrite Hk.
Qed.

Lemma accumulate_ret f env k loc w :
  @accumulate _ (with_ret f) env k loc w = accumulate env k loc w.
Proof. unfold accumulate. by apply model_call_discarded. Qed.

Lemma train_step_ret f env it loc w :
  @train_step _ (with_ret f) env it loc w = train_step env it loc w.
Proof.
  unfold train_step. apply bind_ext; [done|]. intros _ w1.
  apply bind_ext; [|done].
  apply for_loop_ext. intros. apply accumulate_ret.
Qed.

Lemma estimate_loss_body_ret f env s rr k loc w :
  @estimate_loss_body _ (with_ret f) env s rr k loc w =
  estimate_loss_body env s rr k loc w.
Proof.
  destruct loc as [losses rouge1]. unfold estimate_loss_body.
  apply bind_ext; [done|]. intros b w1.
  by apply model_call_discarded.
Qed.

Lemma estimate_loss_ret f env s rr w :
  @estimate_loss _ (with_ret f) env s rr w = estimate_loss env s rr w.
Proof.
  unfold estimate_loss, no_grad. f_equal.
  - f_equal. do 4 (apply bind_ext; [done|intros]).
    apply bind_ext; [|done]. apply for_loop_ext. intros.
    apply estimate_loss_body_ret.
  - f_equal. f_equal. do 4 (apply bind_ext; [done|intros]).
    apply bind_ext; [|done]. apply for_loop_ext. intros.
    apply estimate_loss_body_ret.
  - f_equal. do 4 (apply bind_ext; [done|intros]).
    apply bind_ext; [|done]. apply for_loop_ext. intros.
    apply estimate_loss_body_ret.
Qed.

Lemma evaluate_and_checkpoint_ret f env it loc w :
  @evaluate_and_checkpoint _ (with_ret f) env it loc w =
  evaluate_and_checkpoint env it loc w.
Proof.
  unfold evaluate_and_checkpoint. apply bind_ext; [|done].
  apply bind_ext; [apply estimate_loss_ret|]. intros [val_loss ?] w1.
  apply bind_ext; [apply estimate_loss_ret|done].
Qed.

Lemma loop_body_ret f env it loc w :
  @loop_body _ (with_ret f) env it loc w = loop_body env it loc w.
Proof.
  unfold loop_body. apply bind_ext; [apply train_step_ret|].
  intros loc1 w1. unfold evaluate_or_log.
  apply bind_ext; [done|]. intros _ w2.
  apply bind_ext; [done|]. intros m w3.
  destruct (decide (m = 0)); [apply evaluate_and_checkpoint_ret|done].
Qed.

Lemma init_world_ret f cfg : @init_world _ (with_ret f) cfg = init_world cfg.
Proof. unfold init_world, init_scaler. reflexivity. Qed.

Lemma make_env_ret f cfg : @make_env _ (with_ret f) cfg = make_env cfg.
Proof.
  unfold make_env, setdefault_best_val_loss, setdefault_iter_num. reflexivity.
Qed.

Lemma init_locals_ret f env r :
  @init_locals _ (with_ret f) env r = init_locals env r.
Proof. unfold init_locals. reflexivity. Qed.

Lemma training_loop_ret f env loc w :
  @training_loop _ (with_ret f) env loc w = training_loop env loc w.
Proof.
  unfold training_loop. apply for_loop_ext. intros. apply loop_body_ret.
Qed.

Lemma init_phase_ret f cfg w :
  @init_phase _ (with_ret f) cfg w = init_phase cfg w.
Proof.
  rewrite (@init_phase_run _ (with_ret f)), init_phase_run.
  unfold init_scaler. reflexivity.
Qed.

Lemma main_ret f cfg : @main _ (with_ret f) cfg = main cfg.
Proof.
  unfold main, main_body.
  rewrite init_world_ret, make_env_ret.
  apply bind_ext; [apply init_phase_ret|]. intros _ w1.
  apply bind_ext; [reflexivity|]. intros _ w2.
  apply bind_ext; [reflexivity|]. intros first w3.
  rewrite init_locals_ret.
  apply bind_ext; [apply training_loop_ret|]. intros loc w4. reflexivity.
Qed.

(** C5.  The forward call writes logits and loss into the batch object it
    is given and touches nothing else.  The training pass and the evaluation
    pass then read [batch.loss] from that same object: the loss that is
    scaled and backpropagated, and the loss stored in [losses[k]], is the
    loss field the object holds after the call; the logging branch reads the
    loss field of the batch last trained on.  What the forward call returns
    is not used: passing it through any function leaves [main] unchanged. *)
Theorem loss_is_read_from_the_batch env :
  (∀ r w,
     log (model_call env r w) = [EvForward r (training w) (grad_enabled w)] ∧
     heap (world (model_call env r w)) =
       <[r := (forward (ctx env) (training w) (grad_enabled w) (weights w)
                       (batch_data env r)).1]> (heap w) ∧
     world (model_call env r w) =
       set_heap (heap (world (model_call env r w))) w) ∧
  (∀ k loc w, ∃ out nb,
     heap (world (accumulate env k loc w)) !! next_batch loc = Some out ∧
     log (accumulate env k loc w) =
       [EvForward (next_batch loc) (training w) (grad_enabled w);
        EvNext nb; EvGetLoss (next_batch loc); EvScale (loss out);
        EvBackward (next_batch loc) (scaled (scaler w) (loss out))]) ∧
  (∀ s rr k losses rouge1 w, ∃ out rest rouge1',
     heap (world (estimate_loss_body env s rr k (losses, rouge1) w))
       !! (s, pos s w) = Some out ∧
     log (estimate_loss_body env s rr k (losses, rouge1) w) =
       EvNext (s, pos s w) ::
       EvForward (s, pos s w) (training w) (grad_enabled w) ::
       EvGetLoss (s, pos s w) :: rest ∧
     res (estimate_loss_body env s rr k (losses, rouge1) w) =
       inr (<[Z.to_nat k := loss out]> losses, rouge1')) ∧
  (∀ it loc w b out,
     batch loc = Some b → heap w !! b = Some out →
     log_train_loss it loc w =
       MkOut [EvGetLoss b; EvPrint (MsgIter it (loss out))] w
             (inr (append_train_loss (loss out) loc))) ∧
  (∀ f cfg, @main _ (with_ret f) cfg = main cfg).
Proof.
  split_and!.
  - intros r w. unfold model_call.
    destruct (forward _ _ _ _ _) as [out rv]. by split_and!.
  - intros k loc w. rewrite accumulate_run. cbn [log world].
    eexists _, _. split; [|reflexivity].
    unfold pass_world. cbn [heap set_grads set_pos set_heap].
    by rewrite lookup_insert_eq.
  - intros s rr k losses rouge1 w.
    unfold estimate_loss_body, bind, next, model_call, get_loss,
      compute_rouge, get_logits, emit, get, ret, batch_data. cbn.
    destruct (forward _ _ _ _ _) as [out rv]. cbn.
    rewrite lookup_insert_eq. cbn.
    destruct rr; cbn.
    + unfold bind, throw. cbn. rewrite lookup_insert_eq. cbn.
      rewrite lookup_insert_eq. by eexists _, _, _.
    + rewrite lookup_insert_eq. by eexists _, _, _.
  - intros it loc w b out Hb Hh. unfold log_train_loss, get_loss.
    rewrite Hb. run. rewrite Hh. run. done.
  - apply main_ret.
Qed.

End Ret.

(** * The claims on the small instance *)

Module Examples.
Import Fixture.

(** Finds an event in an explicit log. *)
Ltac member :=
  repeat first [apply list_elem_of_here | apply list_elem_of_further].

(** A run that evaluates at every iteration, in bfloat16. *)
Definition cfg1 (max_it : Z) : Config :=
  cfg 0 max_it 1 1 1 1 false "bfloat16".

Definition env1 : Env := make_env (cfg1 2).
Definition loc1 : Locals := init_locals env1 (Train, 0%nat).
Definition w1 : World := set_pos Train 1 (init_world (cfg1 2)).

(** C1 fails at iteration 0: the evaluation reports a validation loss of 50,
    below the initial best of 1e9, and the run writes no checkpoint. *)
Lemma improvement_at_iteration_zero_not_checkpointed :
  EvPrint (MsgEval 0 42 50) ∈ log (loop_body env1 0 loc1 w1) ∧
  tlt 50 (best_val_loss loc1) = true ∧
  (∀ e, e ∈ log (loop_body env1 0 loc1 w1) → is_checkpoint_event e = false) ∧
  (∀ e, e ∈ log (main (cfg1 1)) → is_checkpoint_event e = false).
Proof.
  split_and!.
  - vm_compute. member.
  - reflexivity.
  - intros e He. vm_compute in He.
    repeat (apply elem_of_cons in He as [->|He]; [reflexivity|]).
    by apply elem_of_nil in He.
  - intros e He. vm_compute in He.
    repeat (apply elem_of_cons in He as [->|He]; [reflexivity|]).
    by apply elem_of_nil in He.
Qed.

Lemma improvement_is_checkpointed_witness :
  1 > 0 ∧
  EvPrint (MsgEval 1 42 50) ∈ log (loop_body env1 1 loc1 w1) ∧
  tlt 50 (best_val_loss loc1) = true ∧
  ∃ pre,
    log (loop_body env1 1 loc1 w1) =
      pre ++ EvPrint (MsgEval 1 42 50) ::
      save_log env1 1 50 (world (loop_body env1 1 loc1 w1)).
Proof.
  assert (H1 : 1 > 0) by lia.
  assert (H2 : EvPrint (MsgEval 1 42 50) ∈ log (loop_body env1 1 loc1 w1)).
  { vm_compute. member. }
  assert (H3 : tlt 50 (best_val_loss loc1) = true) by reflexivity.
  split_and!; [exact H1|exact H2|exact H3|].
  exact (improvement_is_checkpointed_after_iteration_zero
           env1 1 loc1 w1 42 50 H1 H2 H3).
Defined.

Lemma checkpoint_bundle_witness :
  EvTorchSave (checkpoint_dict env1 1 50 (world (loop_body env1 1 loc1 w1)))
              "out/ckpt_status.pt"
    ∈ log (loop_body env1 1 loc1 w1) ∧
  "out/ckpt_status.pt" = os_path_join (out_dir (config env1)) "ckpt_status.pt" ∧
  dom (checkpoint_dict env1 1 50 (world (loop_body env1 1 loc1 w1))) =
    ({["optimizer"; "iter_num"; "best_val_loss"; "config"]} : gset string) ∧
  size (checkpoint_dict env1 1 50 (world (loop_body env1 1 loc1 w1))) = 4%nat.
Proof.
  assert (H : EvTorchSave
                (checkpoint_dict env1 1 50 (world (loop_body env1 1 loc1 w1)))
                "out/ckpt_status.pt"
              ∈ log (loop_body env1 1 loc1 w1)).
  { vm_compute. member. }
  destruct (checkpoint_bundle_has_four_entries env1 1 loc1 w1 _ _ H)
    as (Hpath & Hdom & Hsize & _).
  split_and!; [exact H|exact Hpath|exact Hdom|exact Hsize].
Defined.

(** Iteration 1 of [cfg1] evaluates: one validation batch, whose loss is
    the validation loss the iteration prints and records. *)
Lemma evaluation_at_interval_witness :
  eval_interval (config env1) ≠ 0 ∧
  1 `mod` eval_interval (config env1) = 0 ∧
  0 ≤ eval_iters (config env1) ∧
  ∃ mid rest train_loss loc',
    log (loop_body env1 1 loc1 w1) =
      log (train_step env1 1 loc1 w1) ++
      EvTime :: EvEstimateLoss Val false :: EvModelEval :: mid ++
      EvModelTrain :: rest ∧
    Forall (is_batch_event false false) mid ∧
    forwarded mid =
      batches Val (val_pos (world (train_step env1 1 loc1 w1)))
              (Z.to_nat (eval_iters (config env1))) ∧
    EvPrint (MsgEval 1 train_loss
               (tmean (eval_losses env1 Val
                         (world (train_step env1 1 loc1 w1))))) ∈ rest ∧
    res (loop_body env1 1 loc1 w1) = inr loc' ∧
    val_losses loc' =
      val_losses loc1 ++
      [tmean (eval_losses env1 Val (world (train_step env1 1 loc1 w1)))].
Proof.
  assert (H1 : eval_interval (config env1) ≠ 0) by done.
  assert (H2 : 1 `mod` eval_interval (config env1) = 0) by done.
  assert (H3 : 0 ≤ eval_iters (config env1)) by done.
  destruct (evaluation_at_interval_returns_mean env1) as (_ & Hev & _).
  split; [exact H1|]. split; [exact H2|]. split; [exact H3|].
  exact (Hev 1 loc1 w1 H1 H2 H3).
Defined.

(** A run whose second evaluation would come at a zero interval. *)
Definition cfg_zero_interval : Config := cfg 0 2 1 0 1 1 false "bfloat16".

(** C2 fails when [eval_interval] is 0: [0 <= iter_num <= max_iters] holds
    and [max_iters - iter_num] is 2, yet the run makes one [scaler.step]
    call and then raises ZeroDivisionError at line 133. *)
Lemma zero_eval_interval_stops_after_one_step :
  0 ≤ default 0 (cfg_iter_num cfg_zero_interval) ≤ max_iters cfg_zero_interval ∧
  max_iters cfg_zero_interval - default 0 (cfg_iter_num cfg_zero_interval) = 2 ∧
  passes_per_step 0 (log (main cfg_zero_interval)) = [1%nat] ∧
  passes_per_step 0 (log (main_loop cfg_zero_interval)) = [1%nat] ∧
  res (main_loop cfg_zero_interval) = inl ZeroDivisionError ∧
  res (main cfg_zero_interval) = inl ZeroDivisionError.
Proof. split; [done|]. split; [done|]. split_and!; by vm_compute. Qed.

(** A run of three iterations with two passes each, evaluated every second
    iteration and logged otherwise. *)
Definition cfg3 : Config := cfg 0 3 2 2 1 2 false "float16".

Definition env3 : Env := make_env cfg3.
Definition loc3 : Locals := init_locals env3 (Train, 0%nat).
Definition w3 : World := set_pos Train 1 (init_world cfg3).

(** The locals when the loop of [cfg3] returns. *)
Definition loc3_final : Locals :=
  Eval vm_compute in
    match res (training_loop env3 loc3 w3) with
    | inr loc => loc
    | inl _ => loc3
    end.

Lemma training_loop_steps_witness :
  0 ≤ default 0 (cfg_iter_num (config env3)) ≤ max_iters (config env3) ∧
  res (training_loop env3 loc3 w3) = inr loc3_final ∧
  passes_per_step 0 (log (training_loop env3 loc3 w3)) =
    replicate
      (Z.to_nat (max_iters (config env3) -
                 default 0 (cfg_iter_num (config env3))))
      (Z.to_nat (gradient_accumulation_steps (config env3))) ∧
  Z.of_nat (length (passes_per_step 0 (log (training_loop env3 loc3 w3)))) =
    max_iters (config env3) - default 0 (cfg_iter_num (config env3)).
Proof.
  assert (H1 : 0 ≤ default 0 (cfg_iter_num (config env3))
                 ≤ max_iters (config env3)) by done.
  assert (H2 : res (training_loop env3 loc3 w3) = inr loc3_final)
    by (vm_compute; reflexivity).
  split; [exact H1|]. split; [exact H2|].
  exact (proj1 (training_loop_steps_and_passes env3) loc3 w3 loc3_final H1 H2).
Defined.

(** The locals after iterations 0 and 1 of [cfg1]. *)
Definition loc1_final : Locals :=
  Eval vm_compute in
    match res (for_loop [0; 1] (loop_body env1) loc1 w1) with
    | inr loc => loc
    | inl _ => loc1
    end.

Lemma best_val_loss_witness :
  (∀ a : Z, tlt a a = false) ∧
  (∀ a b c : Z, tlt a b = true → tlt b c = true → tlt a c = true) ∧
  always_save_checkpoint (config env1) = false ∧
  res (for_loop [0; 1] (loop_body env1) loc1 w1) = inr loc1_final ∧
  reported_val_losses (log (for_loop [0; 1] (loop_body env1) loc1 w1)) =
    [50; 41] ∧
  val_losses loc1_final =
    val_losses loc1 ++
    reported_val_losses (log (for_loop [0; 1] (loop_body env1) loc1 w1)) ∧
  best_val_loss loc1_final =
    foldl py_min (best_val_loss loc1)
          (reported_val_losses
             (log (for_loop [0; 1] (loop_body env1) loc1 w1))) ∧
  is_min (best_val_loss loc1_final)
         (best_val_loss loc1 ::
          reported_val_losses
            (log (for_loop [0; 1] (loop_body env1) loc1 w1))) ∧
  tlt (best_val_loss loc1) (best_val_loss loc1_final) = false.
Proof.
  assert (H1 : ∀ a : Z, tlt a a = false) by (intros a; apply Z.ltb_irrefl).
  assert (H2 : ∀ a b c : Z, tlt a b = true → tlt b c = true → tlt a c = true).
  { intros a b c Hab Hbc. apply Z.ltb_lt. apply Z.ltb_lt in Hab, Hbc. lia. }
  assert (H3 : always_save_checkpoint (config env1) = false) by reflexivity.
  assert (H4 : res (for_loop [0; 1] (loop_body env1) loc1 w1) = inr loc1_final)
    by (vm_compute; reflexivity).
  assert (H5 : reported_val_losses
                 (log (for_loop [0; 1] (loop_body env1) loc1 w1)) = [50; 41])
    by (vm_compute; reflexivity).
  destruct (best_val_loss_is_running_minimum env1 [0; 1] loc1 w1 loc1_final
              H1 H2 H3 H4) as (Hv & Hb & Hm & Hle & _).
  split; [exact H1|]. split; [exact H2|]. split; [exact H3|].
  split; [exact H4|]. split; [exact H5|]. split; [exact Hv|].
  split; [exact Hb|]. split; [exact Hm|exact Hle].
Defined.

Lemma disabled_scaler_witness :
  dtype (cfg1 2) ≠ "float16" ∧
  enabled (scaler w1) = false ∧
  res (training_loop env1 loc1 w1) = res (unscaled_training_loop env1 loc1 w1) ∧
  world (training_loop env1 loc1 w1) =
    world (unscaled_training_loop env1 loc1 w1) ∧
  erase_log (log (training_loop env1 loc1 w1)) =
    log (unscaled_training_loop env1 loc1 w1).
Proof.
  assert (H : enabled (scaler w1) = false) by reflexivity.
  destruct (disabled_scaler_is_unscaled_training env1) as (_ & _ & _ & Hsim).
  destruct (Hsim loc1 w1 H) as (Hr & Hw & Hl).
  split_and!; [done|exact H|exact Hr|exact Hw|exact Hl].
Defined.

End Examples.

(** * Further properties of train.py *)

Section Extras.
Context `{L : Library}.
Local Open Scope M_scope.

(** One iteration: the two halves with what the first leaves behind. *)
Lemma loop_body_halves env it loc w :
  ∃ loc1 passes o g w1 out,
    loop_body env it loc w =
      MkOut (train_log env passes o g ++ log out) (world out) (res out) ∧
    outcome env it loc1 w1 out ∧
    Forall (is_pass (scaler w)) passes ∧
    same_records loc loc1 ∧
    (0 < gradient_accumulation_steps (config env) →
     ∃ b, batch loc1 = Some b ∧ is_Some (heap w1 !! b)).
Proof.
  destruct (loop_body_run env it loc w)
    as (loc1 & passes & o & g & w1 & out & Hts & Hout & Hrun).
  destruct (train_step_run env it loc w)
    as (loc1' & passes' & o' & g' & w1' & Hts' & _ & Hp & _ & _ & Hrec
        & _ & _ & _ & _ & Hb).
  rewrite Hts' in Hts. injection Hts as Hlog Hw Hloc. subst loc1' w1'.
  fold (train_log env passes' o' g') in Hlog.
  exists loc1, passes', o', g', w1, out. rewrite Hrun, Hlog. by split_and!.
Qed.

Lemma loop_curves env :
  eval_interval (config env) ≠ 0 → log_interval (config env) ≠ 0 →
  0 ≤ eval_iters (config env) →
  0 < gradient_accumulation_steps (config env) →
  ∀ its loc w, ∃ loc',
    res (for_loop its (loop_body env) loc w) = inr loc' ∧
    length (train_losses loc') =
      (length (train_losses loc) + train_points (config env) its)%nat ∧
    length (val_losses loc') =
      (length (val_losses loc) + val_points (config env) its)%nat.
Proof.
  intros He Hl Hn Hg. unfold train_points, val_points.
  induction its as [|it its IH]; intros loc w.
  { exists loc. simpl. split_and!; [done|lia|lia]. }
  simpl for_loop.
  destruct (loop_body_halves env it loc w)
    as (loc1 & passes & o & g & w1 & out & Hrun & Hout & _ & Hrec & Hb).
  destruct (Hb Hg) as (b & Hbatch & [ob Hheap]).
  destruct Hrec as (_ & Htl & Hvl).
  unfold bind. rewrite Hrun. cbn [res world log].
  destruct Hout as [| | mid1 mid2 tl w' | | | | b' out' |];
    cbn [res world log] in *; try done; try lia; try congruence.
  - destruct (IH (evaluated env tl (tmean (eval_losses env Val w1)) loc1) w')
      as (loc' & -> & Ht & Hv).
    exists loc'. split; [done|]. rewrite Ht, Hv.
    rewrite !filter_cons_True by auto. cbn [length].
    unfold evaluated. destruct (improves _ _ _); simpl;
      rewrite !length_app, Htl, Hvl; simpl; lia.
  - destruct (IH (append_train_loss (loss out') loc1) w1)
      as (loc' & -> & Ht & Hv).
    exists loc'. split; [done|]. rewrite Ht, Hv.
    rewrite (filter_cons_True _ it) by auto.
    rewrite (filter_cons_False _ it) by auto. simpl.
    rewrite !length_app, Htl, Hvl. simpl.
    generalize (length (filter (λ it, it `mod` eval_interval (config env) = 0 ∨
                                      it `mod` log_interval (config env) = 0)
                               its)).
    intros n. split; [lia|done].
  - destruct (IH loc1 w1) as (loc' & -> & Ht & Hv).
    exists loc'. split; [done|]. rewrite Ht, Hv.
    rewrite !filter_cons_False by tauto. by rewrite Htl, Hvl.
Qed.

(** Lines 174 to 181 with non-zero intervals. *)
Lemma plot_phase_res env loc w :
  log_interval (config env) ≠ 0 → eval_interval (config env) ≠ 0 →
  res (plot_phase env loc w) =
    if bool_decide (arange_length (max_iters (config env))
                                  (log_interval (config env)) =
                    length (train_losses loc)) &&
       bool_decide (arange_length (max_iters (config env))
                                  (eval_interval (config env)) =
                    length (val_losses loc))
    then inr tt else inl ValueError.
Proof.
  intros Hl He. unfold plot_phase, np_arange, ax_plot, arange_length. run.
  destruct (decide (log_interval (config env) = 0)); [done|]. run.
  rewrite length_fmap, length_seqZ.
  destruct (decide (Z.to_nat _ = length (train_losses loc))) as [Ht|Ht].
  2:{ run. by rewrite (bool_decide_eq_false_2 _ Ht). }
  rewrite (bool_decide_eq_true_2 _ Ht). run.
  destruct (decide (eval_interval (config env) = 0)); [done|]. run.
  rewrite length_fmap, length_seqZ.
  destruct (decide (Z.to_nat _ = length (val_losses loc))) as [Hv|Hv].
  2:{ run. by rewrite (bool_decide_eq_false_2 _ Hv). }
  rewrite (bool_decide_eq_true_2 _ Hv). run. done.
Qed.

(** The log of [main], phase by phase. *)
Lemma main_run cfg :
  main cfg =
  MkOut ([EvLoadConfig "config/train.yaml"; EvSetup; EvInitTransformer;
          EvGradScaler (enabled (init_scaler cfg)); EvAdamW;
          EvCreateLrScheduler; EvRougeLoad; EvTokenizer;
          EvGetPromptDataloaders; EvTime; EvNext (Train, 0%nat)] ++
         log (bind (λ w, main_loop cfg)
                   (plot_phase (make_env cfg)) (init_world cfg)))
        (world (bind (λ w, main_loop cfg)
                     (plot_phase (make_env cfg)) (init_world cfg)))
        (res (bind (λ w, main_loop cfg)
                   (plot_phase (make_env cfg)) (init_world cfg))).
Proof.
  unfold main, main_body.
  rewrite (bind_out _ _ _ _ _ _ (init_phase_run cfg (init_world cfg))).
  cbv beta. rewrite bind_emit.
  rewrite (bind_out _ _ _ _ _ _
             (eq_refl : next Train (init_world cfg) =
                        MkOut [EvNext (Train, 0%nat)]
                              (set_pos Train 1 (init_world cfg))
                              (inr (Train, 0%nat)))).
  cbv beta. cbn [log world res app].
  unfold main_loop. unfold bind. by destruct (res _).
Qed.

(** X1.  With non-zero [eval_interval] and [log_interval], a non-negative
    [eval_iters] and at least one accumulation step, no iteration raises:
    the loop returns whatever iterations it is given.  [main] then returns
    exactly when each of the two curves has as many points as its x axis
    [np.arange(0, max_iters, interval)]: one training point per iteration
    that evaluates or logs, one validation point per iteration that
    evaluates.  Otherwise it raises ValueError at [ax.plot], after the whole
    training. *)
Theorem main_returns_iff_curves_fit cfg :
  eval_interval cfg ≠ 0 → log_interval cfg ≠ 0 → 0 ≤ eval_iters cfg →
  0 < gradient_accumulation_steps cfg →
  (∀ its loc w, ∃ loc',
     res (for_loop its (loop_body (make_env cfg)) loc w) = inr loc') ∧
  res (main cfg) = if curves_fit cfg then inr tt else inl ValueError.
Proof.
  intros He Hl Hn Hg.
  pose proof (loop_curves (make_env cfg) He Hl Hn Hg) as Hloop.
  split.
  { intros its loc w. destruct (Hloop its loc w) as (loc' & Hres & _).
    by exists loc'. }
  destruct (Hloop (range (default 0 (cfg_iter_num (config (make_env cfg))))
                         (max_iters (config (make_env cfg))))
                  (init_locals (make_env cfg) (Train, 0%nat))
                  (set_pos Train 1 (init_world cfg)))
    as (loc' & Hloc' & Ht & Hv).
  rewrite main_run. cbn [res]. unfold bind, main_loop, training_loop.
  rewrite Hloc'. cbn [res].
  rewrite plot_phase_res by done. rewrite Ht, Hv. done.
Qed.

(** X2.  With at least one accumulation step an iteration raises in two
    ways only: ZeroDivisionError from one of the two [%] of lines 133 and
    168, and RuntimeError from [torch.zeros] when an evaluation is due with
    a negative [eval_iters]. *)
Theorem iteration_raises_iff env it loc w e :
  0 < gradient_accumulation_steps (config env) →
  res (loop_body env it loc w) = inl e ↔
  (e = ZeroDivisionError ∧
   (eval_interval (config env) = 0 ∨
    (it `mod` eval_interval (config env) ≠ 0 ∧
     log_interval (config env) = 0))) ∨
  (e = RuntimeError ∧ eval_interval (config env) ≠ 0 ∧
   it `mod` eval_interval (config env) = 0 ∧ eval_iters (config env) < 0).
Proof.
  intros Hg.
  destruct (loop_body_halves env it loc w)
    as (loc1 & passes & o & g & w1 & out & -> & Hout & _ & _ & Hb).
  destruct (Hb Hg) as (b & Hbatch & [ob Hheap]). cbn [res].
  destruct Hout; cbn [res]; split;
    try (intros [= <-]); try (intros [= ?]); try congruence;
    try (intros [(-> & [?|[? ?]])|(-> & ? & ? & ?)]; first [done|lia]);
    try (left; split; [done|]; by auto);
    try (right; by split_and!).
Qed.

Lemma train_step_without_passes env it loc w :
  gradient_accumulation_steps (config env) ≤ 0 →
  ∃ o g w',
    train_step env it loc w =
      MkOut (clip_log env ++ [EvScalerStep o g; EvScalerUpdate; EvZeroGrad])
            w' (inr loc) ∧
    heap w' = heap w.
Proof.
  intros Hg. unfold train_step, set_lr. rewrite bind_modify.
  unfold range. rewrite seqZ_nil by lia. simpl for_loop. rewrite bind_ret.
  destruct (clip_and_step_run env loc
              (set_optimizer (with_lr (lr_scheduler env it) (optimizer w)) w))
    as (w' & -> & _ & _ & _ & _ & Hh & _).
  by eexists _, _, w'.
Qed.

(** X3.  With no accumulation step the local [batch] is never bound: an
    iteration that starts with it unbound and takes the logging branch
    raises UnboundLocalError at line 170, after its optimizer step. *)
Theorem logging_with_unbound_batch_raises env it loc w :
  gradient_accumulation_steps (config env) ≤ 0 →
  batch loc = None →
  eval_interval (config env) ≠ 0 →
  it `mod` eval_interval (config env) ≠ 0 →
  log_interval (config env) ≠ 0 →
  it `mod` log_interval (config env) = 0 →
  res (loop_body env it loc w) = inl UnboundLocalError ∧
  ∃ o g, EvScalerStep o g ∈ log (loop_body env it loc w).
Proof.
  intros Hg Hb He Hm Hl Hm'.
  destruct (train_step_without_passes env it loc w Hg)
    as (o & g & w' & Hts & _).
  unfold loop_body. rewrite (bind_out _ _ _ _ _ _ Hts). cbn [res log].
  split.
  - pose proof (evaluate_or_log_run env it loc w') as Hout.
    destruct Hout; cbn [res]; congruence.
  - exists o, g. rewrite !elem_of_app. left. right. apply list_elem_of_here.
Qed.

(** What the second half of an iteration reports and saves. *)
Lemma outcome_reports env it loc w out :
  outcome env it loc w out →
  (∀ it' tl vl, EvPrint (MsgEval it' tl vl) ∈ log out →
     it' = it ∧
     res out = inr (evaluated env tl vl loc) ∧
     ∃ pre,
       log out = pre ++ EvPrint (MsgEval it tl vl) ::
                 (if improves env vl loc
                  then if decide (it > 0)
                       then save_log env it vl (world out) else []
                  else [])) ∧
  (∀ e, is_checkpoint_event e = true → e ∈ log out →
     it > 0 ∧
     ∃ tl vl pre,
       improves env vl loc = true ∧
       log out = pre ++ EvPrint (MsgEval it tl vl) ::
                 save_log env it vl (world out)).
Proof.
  destruct 1 as [| | mid1 mid2 tl w' ? ? ? Hm1 Hm2 | | | | |];
    cbn [log world res]; (split; [intros it' tl' vl' Hin|intros e He Hin]);
    try (by not_member Hin);
    try (exfalso;
         repeat (apply elem_of_cons in Hin as [->|Hin]; [done|]);
         by apply elem_of_nil in Hin).
  - rewrite elem_of_cons, !elem_of_app, elem_of_cons in Hin.
    destruct Hin as [?|[Hin|[Hin|[Heq|Hin]]]]; try done.
    + by apply not_in_estimate_log in Hin.
    + by apply not_in_estimate_log in Hin.
    + injection Heq as -> -> ->. split_and!; try done.
      exists (EvTime :: estimate_log Val false mid1 ++
              estimate_log Train false mid2).
      unfold estimate_log.
      repeat (progress (rewrite <- ?app_assoc; cbn [app])). done.
    + exfalso. destruct (improves _ _ _); [|by apply elem_of_nil in Hin].
      destruct (decide (it > 0)); [|by apply elem_of_nil in Hin].
      unfold save_log in Hin. not_member Hin.
  - rewrite elem_of_cons, !elem_of_app, elem_of_cons in Hin.
    destruct Hin as [->|[Hin|[Hin|[->|Hin]]]]; try done.
    + apply not_in_estimate_log in Hin; [done|done|by destruct e].
    + apply not_in_estimate_log in Hin; [done|done|by destruct e].
    + destruct (improves _ _ _) eqn:Hi; [|by apply elem_of_nil in Hin].
      destruct (decide (it > 0)); [|by apply elem_of_nil in Hin].
      split; [done|].
      exists tl, (tmean (eval_losses env Val w)),
        (EvTime :: estimate_log Val false mid1 ++
         estimate_log Train false mid2).
      split; [done|]. unfold estimate_log.
      repeat (progress (rewrite <- ?app_assoc; cbn [app])). done.
Qed.

(** X4.  An iteration calls [torch.save] exactly when [it > 0] and its
    evaluation reported a validation loss that passes the test of line 153;
    it then ends with the three calls of lines 162 to 166, in that order,
    so the weights are saved before the status file.  No other iteration
    saves anything: not iteration 0, and not one that only logs. *)
Theorem checkpoint_written_iff env it loc w :
  ((∃ ck path, EvTorchSave ck path ∈ log (loop_body env it loc w)) ↔
   it > 0 ∧
   ∃ tl vl, EvPrint (MsgEval it tl vl) ∈ log (loop_body env it loc w) ∧
            improves env vl loc = true) ∧
  ((∃ ck path, EvTorchSave ck path ∈ log (loop_body env it loc w)) →
   ∃ pre vl,
     log (loop_body env it loc w) =
       pre ++ save_log env it vl (world (loop_body env it loc w))) ∧
  ((∀ ck path, EvTorchSave ck path ∉ log (loop_body env it loc w)) →
   ∀ e, e ∈ log (loop_body env it loc w) → is_checkpoint_event e = false).
Proof.
  destruct (loop_body_halves env it loc w)
    as (loc1 & passes & o & g & w1 & out & -> & Hout & Hp & Hrec & _).
  destruct Hrec as (Hbest & _).
  assert (Himp : ∀ vl, improves env vl loc1 = improves env vl loc).
  { intros vl. unfold improves. by rewrite Hbest. }
  destruct (outcome_reports _ _ _ _ _ Hout) as [Hrep Hsave].
  cbn [log world].
  assert (Hin_out : ∀ e, is_checkpoint_event e = true →
            e ∈ train_log env passes o g ++ log out → e ∈ log out).
  { intros e He Hin. rewrite elem_of_app in Hin.
    destruct Hin as [Hin|Hin]; [|done].
    eapply not_in_train_log in Hin; [done|done|by destruct e]. }
  split_and!.
  - split.
    + intros (ck & path & Hin). apply Hin_out in Hin; [|done].
      destruct (Hsave (EvTorchSave ck path) eq_refl Hin) as (Hit & tl & vl & pre & Hi & Hlog).
      split; [done|]. exists tl, vl. rewrite <- Himp. split; [|done].
      rewrite elem_of_app. right. rewrite Hlog, elem_of_app. right.
      apply list_elem_of_here.
    + intros (Hit & tl & vl & Hpr & Hi).
      rewrite elem_of_app in Hpr.
      destruct Hpr as [Hpr|Hpr]; [by eapply not_in_train_log in Hpr|].
      destruct (Hrep _ _ _ Hpr) as (_ & _ & pre & Hlog).
      rewrite Himp, Hi in Hlog. destruct (decide (it > 0)); [|done].
      eexists _, _. rewrite elem_of_app. right. rewrite Hlog.
      rewrite elem_of_app. right. unfold save_log.
      do 3 apply list_elem_of_further. apply list_elem_of_here.
  - intros (ck & path & Hin). apply Hin_out in Hin; [|done].
    destruct (Hsave (EvTorchSave ck path) eq_refl Hin) as (Hit & tl & vl & pre & Hi & Hlog).
    exists (train_log env passes o g ++ pre ++ [EvPrint (MsgEval it tl vl)]), vl.
    rewrite Hlog, <- !app_assoc. done.
  - intros Hno e Hin. destruct (is_checkpoint_event e) eqn:He; [|done].
    exfalso. apply Hin_out in Hin; [|done].
    destruct (Hsave _ He Hin) as (Hit & tl & vl & pre & Hi & Hlog).
    eapply Hno. rewrite elem_of_app. right. rewrite Hlog, elem_of_app.
    right. unfold save_log.
    do 3 apply list_elem_of_further. apply list_elem_of_here.
Qed.

(** X5.  With [always_save_checkpoint] set, every evaluation overwrites the
    tracked [best_val_loss] with the validation loss it just measured,
    whether or not that loss is lower; after iteration 0 it also writes a
    checkpoint whose "best_val_loss" entry is that loss. *)
Theorem always_save_overwrites_best env it loc w loc' tl vl :
  always_save_checkpoint (config env) = true →
  res (loop_body env it loc w) = inr loc' →
  EvPrint (MsgEval it tl vl) ∈ log (loop_body env it loc w) →
  best_val_loss loc' = vl ∧
  val_losses loc' = val_losses loc ++ [vl] ∧
  (it > 0 →
   ∃ ck path, EvTorchSave ck path ∈ log (loop_body env it loc w) ∧
              ck !! "best_val_loss" = Some (VFloat vl)).
Proof.
  intros Hal.
  destruct (loop_body_halves env it loc w)
    as (loc1 & passes & o & g & w1 & out & -> & Hout & Hp & Hrec & _).
  destruct Hrec as (Hbest & _ & Hval).
  destruct (outcome_reports _ _ _ _ _ Hout) as [Hrep _].
  cbn [log res world]. intros Hres Hin.
  rewrite elem_of_app in Hin.
  destruct Hin as [Hin|Hin]; [by eapply not_in_train_log in Hin|].
  destruct (Hrep _ _ _ Hin) as (_ & Hres' & pre & Hlog).
  rewrite Hres' in Hres. injection Hres as <-.
  assert (Himp : improves env vl loc1 = true).
  { unfold improves. rewrite Hal. apply orb_true_r. }
  unfold evaluated. rewrite Himp. cbn. rewrite Hval.
  split_and!; [done|done|]. intros Hit.
  rewrite Himp in Hlog. destruct (decide (it > 0)); [|done].
  eexists _, _. split.
  - rewrite elem_of_app. right. rewrite Hlog, elem_of_app. right.
    unfold save_log. do 3 apply list_elem_of_further. apply list_elem_of_here.
  - by destruct (checkpoint_dict_entries env it vl (world out))
      as (_ & _ & _ & _ & ? & _).
Qed.

(** X6.  When [max_iters] does not exceed [iter_num] the loop body never
    runs: [main] builds everything and draws the first training batch, makes
    no forward, backward, optimizer, evaluation or checkpoint call, and goes
    straight to the plots with both curves empty, so a call of [ax.plot]
    that succeeds plots nothing.  The batch it drew is never used. *)
Theorem empty_loop_only_plots cfg :
  max_iters cfg ≤ default 0 (cfg_iter_num cfg) →
  main_loop cfg =
    MkOut [] (set_pos Train 1 (init_world cfg))
          (inr (init_locals (make_env cfg) (Train, 0%nat))) ∧
  log (main cfg) =
    [EvLoadConfig "config/train.yaml"; EvSetup; EvInitTransformer;
     EvGradScaler (enabled (init_scaler cfg)); EvAdamW;
     EvCreateLrScheduler; EvRougeLoad; EvTokenizer;
     EvGetPromptDataloaders; EvTime; EvNext (Train, 0%nat)] ++
    log (plot_phase (make_env cfg)
           (init_locals (make_env cfg) (Train, 0%nat))
           (set_pos Train 1 (init_world cfg))) ∧
  (∀ e, e ∈ log (main cfg) →
        is_init_event e = true ∨ is_plot_event e = true ∨
        e = EvTime ∨ e = EvNext (Train, 0%nat)) ∧
  (∀ xs ys label, EvPlot xs ys label ∈ log (main cfg) → xs = [] ∧ ys = []) ∧
  world (main cfg) = set_pos Train 1 (init_world cfg).
Proof.
  intros Hle.
  assert (Hloop : main_loop cfg =
            MkOut [] (set_pos Train 1 (init_world cfg))
                  (inr (init_locals (make_env cfg) (Train, 0%nat)))).
  { unfold main_loop, training_loop, range.
    change (max_iters (config (make_env cfg))) with (max_iters cfg).
    change (cfg_iter_num (config (make_env cfg)))
      with (Some (default 0 (cfg_iter_num cfg))).
    cbn [default].
    change (id (default 0 (cfg_iter_num cfg)))
      with (default 0 (cfg_iter_num cfg)).
    by rewrite seqZ_nil by lia. }
  assert (Hlog : log (main cfg) =
    [EvLoadConfig "config/train.yaml"; EvSetup; EvInitTransformer;
     EvGradScaler (enabled (init_scaler cfg)); EvAdamW;
     EvCreateLrScheduler; EvRougeLoad; EvTokenizer;
     EvGetPromptDataloaders; EvTime; EvNext (Train, 0%nat)] ++
    log (plot_phase (make_env cfg)
           (init_locals (make_env cfg) (Train, 0%nat))
           (set_pos Train 1 (init_world cfg)))).
  { rewrite main_run. cbn [log]. unfold bind. rewrite Hloop. done. }
  assert (Hplots : ∀ xs ys label,
            EvPlot xs ys label
              ∈ log (plot_phase (make_env cfg)
                       (init_locals (make_env cfg) (Train, 0%nat))
                       (set_pos Train 1 (init_world cfg))) →
            xs = [] ∧ ys = []).
  { intros xs ys label. unfold plot_phase, np_arange, ax_plot.
    change (train_losses (init_locals (make_env cfg) (Train, 0%nat)))
      with (@nil tval).
    change (val_losses (init_locals (make_env cfg) (Train, 0%nat)))
      with (@nil tval).
    run.
    destruct (decide (log_interval (config (make_env cfg)) = 0)).
    { run. intros Hin. exfalso. not_member Hin. }
    run.
    destruct (decide (length _ = length [])) as [Ht|Ht].
    2:{ run. intros Hin. exfalso. not_member Hin. }
    apply nil_length_inv in Ht. rewrite Ht. run.
    destruct (decide (eval_interval (config (make_env cfg)) = 0)).
    { run. intros Hin.
      repeat (apply elem_of_cons in Hin as [Hin|Hin];
              [by (discriminate Hin || injection Hin as -> -> _)|]).
      by apply elem_of_nil in Hin. }
    run.
    destruct (decide (length _ = length [])) as [Hv|Hv].
    2:{ run. intros Hin.
        repeat (apply elem_of_cons in Hin as [Hin|Hin];
                [by (discriminate Hin || injection Hin as -> -> _)|]).
        by apply elem_of_nil in Hin. }
    apply nil_length_inv in Hv. rewrite Hv. run. unfold ret. cbn [log].
    intros Hin.
    repeat (apply elem_of_cons in Hin as [Hin|Hin];
            [by (discriminate Hin || injection Hin as -> -> _)|]).
    by apply elem_of_nil in Hin. }
  split; [exact Hloop|]. split; [exact Hlog|]. split_and!.
  - intros e. rewrite Hlog, elem_of_app. intros [Hin|Hin].
    + repeat (apply elem_of_cons in Hin as [->|Hin]; [by auto|]).
      by apply elem_of_nil in Hin.
    + destruct (plot_phase_events (make_env cfg)
                  (init_locals (make_env cfg) (Train, 0%nat))
                  (set_pos Train 1 (init_world cfg))) as [Hall _].
      rewrite Forall_forall in Hall. right. left. by apply Hall.
  - intros xs ys label. rewrite Hlog, elem_of_app. intros [Hin|Hin].
    { exfalso. not_member Hin. }
    by apply Hplots in Hin.
  - rewrite main_run. cbn [world]. unfold bind. rewrite Hloop. cbn [res world].
    unfold plot_phase, np_arange, ax_plot.
    destruct (decide (log_interval (config (make_env cfg)) = 0)); [by run|].
    run.
    destruct (decide (length _ = length _)); [|by run]. run.
    destruct (decide (eval_interval (config (make_env cfg)) = 0)); [by run|].
    run.
    destruct (decide (length _ = length _)); [|by run]. run. done.
Qed.

End Extras.

(** * The further properties on the small instance *)

Module ExtraExamples.
Import Fixture.

(** A run that logs every third iteration and evaluates every second one:
    iterations 0, 2, 3 and 4 add a training point, and np.arange(0, 6, 3)
    has two. *)
Definition cfg_misfit : Config := cfg 0 6 1 2 3 1 false "bfloat16".

Lemma main_returns_witness :
  eval_interval Examples.cfg3 ≠ 0 ∧ log_interval Examples.cfg3 ≠ 0 ∧
  0 ≤ eval_iters Examples.cfg3 ∧
  0 < gradient_accumulation_steps Examples.cfg3 ∧
  curves_fit Examples.cfg3 = true ∧
  res (main Examples.cfg3) = inr tt ∧
  eval_interval cfg_misfit ≠ 0 ∧ log_interval cfg_misfit ≠ 0 ∧
  0 ≤ eval_iters cfg_misfit ∧
  0 < gradient_accumulation_steps cfg_misfit ∧
  curves_fit cfg_misfit = false ∧
  res (main cfg_misfit) = inl ValueError.
Proof.
  assert (H1 : eval_interval Examples.cfg3 ≠ 0) by done.
  assert (H2 : log_interval Examples.cfg3 ≠ 0) by done.
  assert (H3 : 0 ≤ eval_iters Examples.cfg3) by done.
  assert (H4 : 0 < gradient_accumulation_steps Examples.cfg3) by done.
  assert (H5 : curves_fit Examples.cfg3 = true) by (vm_compute; reflexivity).
  assert (G1 : eval_interval cfg_misfit ≠ 0) by done.
  assert (G2 : log_interval cfg_misfit ≠ 0) by done.
  assert (G3 : 0 ≤ eval_iters cfg_misfit) by done.
  assert (G4 : 0 < gradient_accumulation_steps cfg_misfit) by done.
  assert (G5 : curves_fit cfg_misfit = false) by (vm_compute; reflexivity).
  destruct (main_returns_iff_curves_fit Examples.cfg3 H1 H2 H3 H4)
    as [_ Hfit].
  destruct (main_returns_iff_curves_fit cfg_misfit G1 G2 G3 G4)
    as [_ Hmis].
  rewrite H5 in Hfit. rewrite G5 in Hmis.
  split; [exact H1|]. split; [exact H2|]. split; [exact H3|].
  split; [exact H4|]. split; [exact H5|]. split; [exact Hfit|].
  split; [exact G1|]. split; [exact G2|]. split; [exact G3|].
  split; [exact G4|]. split; [exact G5|exact Hmis].
Defined.

Definition env_zero : Env := make_env Examples.cfg_zero_interval.

Lemma iteration_raises_witness :
  0 < gradient_accumulation_steps (config env_zero) ∧
  (res (loop_body env_zero 0 (init_locals env_zero (Train, 0%nat))
                  (set_pos Train 1 (init_world Examples.cfg_zero_interval))) =
     inl ZeroDivisionError ↔
   (ZeroDivisionError = ZeroDivisionError ∧
    (eval_interval (config env_zero) = 0 ∨
     (0 `mod` eval_interval (config env_zero) ≠ 0 ∧
      log_interval (config env_zero) = 0))) ∨
   (ZeroDivisionError = RuntimeError ∧ eval_interval (config env_zero) ≠ 0 ∧
    0 `mod` eval_interval (config env_zero) = 0 ∧
    eval_iters (config env_zero) < 0)).
Proof.
  assert (H : 0 < gradient_accumulation_steps (config env_zero)) by done.
  split; [exact H|].
  exact (iteration_raises_iff env_zero 0
           (init_locals env_zero (Train, 0%nat))
           (set_pos Train 1 (init_world Examples.cfg_zero_interval))
           ZeroDivisionError H).
Defined.

(** A resumed run without accumulation steps: iteration 2 only logs. *)
Definition cfg_no_pass : Config := cfg 2 3 0 4 2 1 false "bfloat16".
Definition env_no_pass : Env := make_env cfg_no_pass.

Lemma logging_with_unbound_batch_witness :
  gradient_accumulation_steps (config env_no_pass) ≤ 0 ∧
  batch (init_locals env_no_pass (Train, 0%nat)) = None ∧
  eval_interval (config env_no_pass) ≠ 0 ∧
  2 `mod` eval_interval (config env_no_pass) ≠ 0 ∧
  log_interval (config env_no_pass) ≠ 0 ∧
  2 `mod` log_interval (config env_no_pass) = 0 ∧
  res (loop_body env_no_pass 2 (init_locals env_no_pass (Train, 0%nat))
                 (set_pos Train 1 (init_world cfg_no_pass))) =
    inl UnboundLocalError ∧
  res (main cfg_no_pass) = inl UnboundLocalError.
Proof.
  assert (H1 : gradient_accumulation_steps (config env_no_pass) ≤ 0) by done.
  assert (H2 : batch (init_locals env_no_pass (Train, 0%nat)) = None) by done.
  assert (H3 : eval_interval (config env_no_pass) ≠ 0) by done.
  assert (H4 : 2 `mod` eval_interval (config env_no_pass) ≠ 0) by done.
  assert (H5 : log_interval (config env_no_pass) ≠ 0) by done.
  assert (H6 : 2 `mod` log_interval (config env_no_pass) = 0) by done.
  split; [exact H1|]. split; [exact H2|]. split; [exact H3|].
  split; [exact H4|]. split; [exact H5|]. split; [exact H6|].
  split; [|by vm_compute].
  exact (proj1 (logging_with_unbound_batch_raises env_no_pass 2
                  (init_locals env_no_pass (Train, 0%nat))
                  (set_pos Train 1 (init_world cfg_no_pass))
                  H1 H2 H3 H4 H5 H6)).
Defined.

(** A run that saves at every evaluation, entered with a best validation
    loss of 7 on record. *)
Definition cfg_always : Config := cfg 0 2 1 1 1 1 true "bfloat16".
Definition env_always : Env := make_env cfg_always.
Definition w_always : World := set_pos Train 1 (init_world cfg_always).
Definition loc_low : Locals :=
  set_best_val_loss 7 (init_locals env_always (Train, 0%nat)).

Definition loc_low_next : Locals :=
  Eval vm_compute in
    match res (loop_body env_always 1 loc_low w_always) with
    | inr loc => loc
    | inl _ => loc_low
    end.

Lemma always_save_overwrites_witness :
  always_save_checkpoint (config env_always) = true ∧
  res (loop_body env_always 1 loc_low w_always) = inr loc_low_next ∧
  EvPrint (MsgEval 1 42 50) ∈ log (loop_body env_always 1 loc_low w_always) ∧
  tlt 50 (best_val_loss loc_low) = false ∧
  best_val_loss loc_low_next = 50 ∧
  val_losses loc_low_next = val_losses loc_low ++ [50].
Proof.
  assert (H1 : always_save_checkpoint (config env_always) = true)
    by reflexivity.
  assert (H2 : res (loop_body env_always 1 loc_low w_always) =
               inr loc_low_next) by (vm_compute; reflexivity).
  assert (H3 : EvPrint (MsgEval 1 42 50)
                 ∈ log (loop_body env_always 1 loc_low w_always)).
  { vm_compute. Examples.member. }
  destruct (always_save_overwrites_best env_always 1 loc_low w_always
              loc_low_next 42 50 H1 H2 H3) as (Hb & Hv & _).
  split; [exact H1|]. split; [exact H2|]. split; [exact H3|].
  split; [reflexivity|]. split; [exact Hb|exact Hv].
Defined.

(** A run resumed when it had reached [max_iters]. *)
Definition cfg_done : Config := cfg 3 3 1 1 1 1 false "bfloat16".

Lemma empty_loop_witness :
  max_iters cfg_done ≤ default 0 (cfg_iter_num cfg_done) ∧
  main_loop cfg_done =
    MkOut [] (set_pos Train 1 (init_world cfg_done))
          (inr (init_locals (make_env cfg_done) (Train, 0%nat))) ∧
  world (main cfg_done) = set_pos Train 1 (init_world cfg_done) ∧
  res (main cfg_done) = inl ValueError.
Proof.
  assert (H : max_iters cfg_done ≤ default 0 (cfg_iter_num cfg_done)) by done.
  destruct (empty_loop_only_plots cfg_done H) as (Hl & _ & _ & _ & Hw).
  split; [exact H|]. split; [exact Hl|]. split; [exact Hw|].
  vm_compute. reflexivity.
Defined.

End ExtraExamples.
